(** * giga-arena: the OS-backed bump allocator of [main.c]

    A shallow embedding of the arena allocator ([align_up], [arena_init],
    [arena_reset], [arena_alloc], [arena_destroy]) and of the operating
    system calls it makes, followed by the properties of the allocator.

    Target: a flat 64-bit address space.  [size_t] and [uint8_t *] are
    64-bit words, kept as [Z] with the wrap-around of every operation
    written out.  A pointer is its address: [p + n] is the machine addition
    (it wraps modulo 2^64, as [arena_alloc] itself relies on when it forms
    [cursor + size] before comparing it with [limit]), [p - q] the machine
    subtraction, and [p > q] the unsigned comparison.  The POSIX backend
    ([#else] branch) is the one embedded. *)

From Stdlib Require Import ZArith Zbitwise List Lia Bool.
Import ListNotations.
Local Open Scope Z_scope.

(** ** Machine words *)

Module Word.

Definition width : Z := 64.
Definition modulus : Z := 2 ^ width.
Definition SIZE_MAX : Z := modulus - 1.

Definition wrap (z : Z) : Z := z mod modulus.

Definition wadd (x y : Z) : Z := wrap (x + y).
Definition wsub (x y : Z) : Z := wrap (x - y).
Definition wmul (x y : Z) : Z := wrap (x * y).
Definition wnot (x : Z) : Z := wrap (Z.lnot x).
Definition wand (x y : Z) : Z := Z.land x y.

(** [is_word z]: [z] is the value of some [size_t] / address. *)
Definition is_word (z : Z) : Prop := 0 <= z < modulus.

End Word.
Import Word.

(** ** Configuration ([#define]s of main.c) *)

Definition ARENA_GUARD_PAGES : bool := true.
Definition ARENA_ALIGNMENT : Z := 8.
Definition BENCH_ALLOC_SIZE : Z := 64.

(** ** Utility helpers *)

(** [return (x + (a - 1)) & ~(a - 1);] *)
Definition align_up (x a : Z) : Z :=
  wand (wadd x (wsub a 1)) (wnot (wsub a 1)).

(** ** The operating system

    The allocator talks to the OS through five calls.  The world is the
    chronological log of the calls made so far; what [os_reserve] and
    [os_commit] answer is up to the OS and may depend on that history. *)

Inductive os_call : Type :=
| PageSize
| Reserve (size : Z)
| Guard (addr size : Z)
| Commit (addr size : Z)
| Release (addr size : Z).

Record OS : Type := mkOS {
  os_page : Z;                                    (* sysconf(_SC_PAGESIZE) *)
  reserve_result : list os_call -> Z -> Z;        (* mmap: address, 0 = NULL *)
  commit_result : list os_call -> Z -> Z -> bool  (* mprotect(..) == 0 *)
}.

(** State monad over the call log. *)
Definition M (A : Type) : Type := list os_call -> A * list os_call.

Definition ret {A : Type} (x : A) : M A := fun log => (x, log).

Definition bind {A B : Type} (m : M A) (k : A -> M B) : M B :=
  fun log => let (x, log') := m log in k x log'.

Notation "x <- m ;; k" := (bind m (fun x => k))
  (at level 61, m at next level, right associativity).
Notation "m ;;; k" := (bind m (fun _ => k))
  (at level 61, right associativity).

Definition os_page_size (os : OS) : M Z :=
  fun log => (os_page os, log ++ [PageSize]).

Definition os_reserve (os : OS) (size : Z) : M Z :=
  fun log => (reserve_result os log size, log ++ [Reserve size]).

Definition os_commit (os : OS) (addr size : Z) : M bool :=
  fun log => (commit_result os log addr size, log ++ [Commit addr size]).

Definition os_release (addr size : Z) : M unit :=
  fun log => (tt, log ++ [Release addr size]).

Definition os_guard (addr size : Z) : M unit :=
  fun log => (tt, log ++ [Guard addr size]).

(** ** Arena data structure *)

Record Arena : Type := mkArena {
  base : Z;          (* usable memory start *)
  cursor : Z;        (* next allocation *)
  commit : Z;        (* committed physical limit *)
  limit : Z;         (* end of reservation *)
  reserve_size : Z;  (* usable bytes *)
  commit_step : Z    (* commit granularity *)
}.

Definition set_cursor (a : Arena) (p : Z) : Arena :=
  mkArena (base a) p (commit a) (limit a) (reserve_size a) (commit_step a).

Definition set_commit (a : Arena) (p : Z) : Arena :=
  mkArena (base a) (cursor a) p (limit a) (reserve_size a) (commit_step a).

(** ** Arena API *)

(** [int arena_init(Arena *a, size_t reserve_size, size_t commit_step)]:
    the result pairs the returned flag with the contents of [*a]. *)
Definition arena_init (os : OS) (a : Arena) (reserve_size commit_step : Z)
  : M (bool * Arena) :=
  page <- os_page_size os ;;
  let guard := if ARENA_GUARD_PAGES then page else 0 in
  let reserve_size := align_up reserve_size page in
  let commit_step := align_up commit_step page in
  let total := wadd reserve_size (wmul guard 2) in
  mem <- os_reserve os total ;;
  if mem =? 0 then ret (false, a)
  else
    (if ARENA_GUARD_PAGES
     then os_guard mem guard ;;;
          os_guard (wadd (wadd mem guard) reserve_size) guard
     else ret tt) ;;;
    let b := wadd mem guard in
    ret (true, mkArena b b b (wadd b reserve_size) reserve_size commit_step).

(** [void arena_destroy(Arena *a)], POSIX backend. *)
Definition arena_destroy (os : OS) (a : Arena) : M unit :=
  p1 <- (if ARENA_GUARD_PAGES then os_page_size os else ret 0) ;;
  p2 <- (if ARENA_GUARD_PAGES
         then (p <- os_page_size os ;; ret (wmul p 2))
         else ret 0) ;;
  os_release (wsub (base a) p1) (wadd (reserve_size a) p2).

(** [void arena_reset(Arena *a)] *)
Definition arena_reset (a : Arena) : Arena := set_cursor a (base a).

(** [next = a->cursor + size], with [size] already aligned. *)
Definition candidate (a : Arena) (size : Z) : Z :=
  wadd (cursor a) (align_up size ARENA_ALIGNMENT).

(** The argument of [os_commit] when the candidate lies past [commit]. *)
Definition commit_need (a : Arena) (next : Z) : Z :=
  align_up (wsub next (commit a)) (commit_step a).

(** [void *arena_alloc(Arena *a, size_t size)]: [None] is [return NULL],
    [Some p] is [return result]; the second component is [*a] afterwards. *)
Definition arena_alloc (os : OS) (a : Arena) (size : Z)
  : M (option Z * Arena) :=
  let next := candidate a size in
  if limit a <? next then ret (None, a)
  else
    grown <- (if commit a <? next then
                let need := commit_need a next in
                ok <- os_commit os (commit a) need ;;
                if ok then ret (Some (set_commit a (wadd (commit a) need)))
                else ret None
              else ret (Some a)) ;;
    match grown with
    | None => ret (None, a)
    | Some a1 => ret (Some (cursor a1), set_cursor a1 next)
    end.

(** A run of [arena_alloc] calls, one per requested size, as the benchmark
    loop issues them (without its early [break]). *)
Fixpoint alloc_all (os : OS) (sizes : list Z) (a : Arena)
  : M (list (option Z) * Arena) :=
  match sizes with
  | [] => ret ([], a)
  | s :: rest =>
      r <- arena_alloc os a s ;;
      rs <- alloc_all os rest (snd r) ;;
      ret (fst r :: fst rs, snd rs)
  end.

(** ** Vocabulary of the properties *)

(** The ordering invariant of the data model. *)
Definition ordered (a : Arena) : Prop :=
  base a <= cursor a /\ cursor a <= commit a /\ commit a <= limit a.

(** The usable range is a range of addresses. *)
Definition in_address_space (a : Arena) : Prop :=
  0 <= base a /\ limit a < modulus.

(** Bytes handed to [os_commit] so far. *)
Fixpoint committed_bytes (log : list os_call) : Z :=
  match log with
  | [] => 0
  | Commit _ size :: rest => size + committed_bytes rest
  | _ :: rest => committed_bytes rest
  end.

(** The candidates computed by the calls of a run, in order. *)
Fixpoint candidates (os : OS) (sizes : list Z) (a : Arena)
    (log : list os_call) : list Z :=
  match sizes with
  | [] => []
  | s :: rest =>
      let r := arena_alloc os a s log in
      candidate a s :: candidates os rest (snd (fst r)) (snd r)
  end.

(** The sum of [align_up(s, 8)] over the requested sizes, as an integer. *)
Fixpoint sum_aligned (sizes : list Z) : Z :=
  match sizes with
  | [] => 0
  | s :: rest => align_up s ARENA_ALIGNMENT + sum_aligned rest
  end.

(** The addresses a bump allocator starting at [p] hands out. *)
Fixpoint bump_addrs (p : Z) (sizes : list Z) : list Z :=
  match sizes with
  | [] => []
  | s :: rest => p :: bump_addrs (p + align_up s ARENA_ALIGNMENT) rest
  end.


Definition all_succeed (results : list (option Z)) : Prop :=
  Forall (fun r => r <> None) results.

(** The state in which commit growth is well behaved: the step is a power
    of two that divides both the committed and the reserved extent. *)
Definition steady (k : Z) (a : Arena) : Prop :=
  0 <= k /\ commit_step a = 2 ^ k /\
  in_address_space a /\ ordered a /\
  (2 ^ k | commit a - base a) /\ (2 ^ k | limit a - base a).

Definition MiB : Z := 1048576.
Definition KiB64 : Z := 65536.

(** A well-behaved OS for the examples: 4 KiB pages, the reservation is
    placed at 1 MiB, every commit succeeds. *)
Definition os4k : OS := mkOS 4096 (fun _ _ => 1048576) (fun _ _ _ => true).

Definition arena0 : Arena := mkArena 0 0 0 0 0 0.

(** An OS out of address space, and one out of physical memory. *)
Definition os_no_reserve : OS := mkOS 4096 (fun _ _ => 0) (fun _ _ _ => true).
Definition os_no_commit : OS :=
  mkOS 4096 (fun _ _ => 1048576) (fun _ _ _ => false).

(** ** Client code: runs of operations and the benchmark *)

(** What a client does with an Active arena between [arena_init] and
    [arena_destroy]. *)
Inductive arena_op : Type :=
| Alloc (size : Z)
| Reset.

(** A client run: the operations in order, results dropped. *)
Fixpoint run_ops (os : OS) (ops : list arena_op) (a : Arena) : M Arena :=
  match ops with
  | [] => ret a
  | Alloc s :: rest => r <- arena_alloc os a s ;; run_ops os rest (snd r)
  | Reset :: rest => run_ops os rest (arena_reset a)
  end.

(** An OS call that is an [os_commit] inside [[lo, hi)]. *)
Definition commit_in (lo hi : Z) (c : os_call) : Prop :=
  match c with
  | Commit addr n => lo <= addr /\ addr + n <= hi
  | _ => False
  end.

(** The candidate of an [Alloc] cannot wrap, wherever the cursor stands
    below [top]. *)
Definition op_fits (top : Z) (op : arena_op) : Prop :=
  match op with
  | Alloc s => top + align_up s ARENA_ALIGNMENT < modulus
  | Reset => True
  end.

(** The state in which the next request can be looked at safely: the
    arena lies above address 0, the cursor is inside it and inside the
    committed range, and one more commit step past [limit] still is an
    address. *)
Definition servable (a : Arena) : Prop :=
  0 < base a /\ base a <= cursor a /\ cursor a <= limit a /\
  cursor a <= commit a /\
  1 <= commit_step a /\ limit a + commit_step a <= modulus.

(** An OS that grants commits only while its call log is short. *)
Definition os_stingy : OS :=
  mkOS 4096 (fun _ _ => 1048576) (fun l _ _ => (length l <? 5)%nat).

Definition BENCH_ITERATIONS : Z := 10000000.

(** [if (!arena_sink)] on the value [arena_alloc] returned. *)
Definition is_null (p : option Z) : bool :=
  match p with
  | None => true
  | Some q => q =? 0
  end.

(** The loop of [bench_arena], [n] iterations from index [i] on:
    [arena_sink = arena_alloc(&a, BENCH_ALLOC_SIZE); if (!arena_sink) {
    printf(.., i); break; }].  The result is the index the loop printed
    before breaking (if it did), the last value stored in [arena_sink], and
    the arena. *)
Fixpoint bench_loop (os : OS) (n : nat) (i : Z) (sink : option Z) (a : Arena)
  : M (option Z * option Z * Arena) :=
  match n with
  | O => ret (None, sink, a)
  | S n' =>
      r <- arena_alloc os a BENCH_ALLOC_SIZE ;;
      if is_null (fst r) then ret (Some i, fst r, snd r)
      else bench_loop os n' (i + 1) (fst r) (snd r)
  end.

(** How [bench_arena] ends: it returns early when [arena_init] fails,
    otherwise it runs the loop to the end or to its [break]. *)
Inductive bench_report : Type :=
| InitFailed
| Finished (failed_at : option Z).

(** [bench_arena]: the allocator calls and the control flow around them.
    The two [now_seconds] readings and the [printf] lines are left out (the
    times are only printed); [a] is the uninitialised local [Arena a]. *)
Definition bench_arena (os : OS) (a : Arena) : M bench_report :=
  r <- arena_init os a (1024 * 1024 * 1024) (64 * 1024) ;;
  if negb (fst r) then ret InitFailed
  else
    l <- bench_loop os (Z.to_nat BENCH_ITERATIONS) 0 None (snd r) ;;
    arena_destroy os (arena_reset (snd l)) ;;;
    ret (Finished (fst (fst l))).

(** * Properties *)

(** ** Words and [align_up] *)

Lemma modulus_eq : modulus = 18446744073709551616.
Proof. reflexivity. Qed.

Lemma modulus_pos : 0 < modulus.
Proof. rewrite modulus_eq; lia. Qed.

Lemma wrap_range (z : Z) : is_word (wrap z).
Proof. unfold is_word, wrap. apply Z.mod_pos_bound, modulus_pos. Qed.

Lemma wrap_small (z : Z) : is_word z -> wrap z = z.
Proof. unfold is_word, wrap. intros H. now apply Z.mod_small. Qed.

Lemma wrap_land (z : Z) : wrap z = Z.land z (Z.ones width).
Proof. unfold wrap, modulus. rewrite Z.land_ones; [reflexivity | unfold width; lia]. Qed.

Lemma wadd_small (x y : Z) : is_word (x + y) -> wadd x y = x + y.
Proof. apply wrap_small. Qed.

Lemma wsub_small (x y : Z) : is_word (x - y) -> wsub x y = x - y.
Proof. apply wrap_small. Qed.

(** Masking a word with a wrapped mask is masking with the mask itself. *)
Lemma wand_wrap_r (y m : Z) : is_word y -> wand y (wrap m) = Z.land y m.
Proof.
  intros Hy. unfold wand.
  rewrite wrap_land, (Z.land_comm m), Z.land_assoc, <- wrap_land.
  now rewrite wrap_small.
Qed.

Lemma align_up_unfold (x a : Z) :
  align_up x a = Z.land (wadd x (wsub a 1)) (Z.lnot (wsub a 1)).
Proof.
  unfold align_up, wnot. apply wand_wrap_r. apply wrap_range.
Qed.

Lemma align_up_word (x a : Z) : is_word (align_up x a).
Proof.
  rewrite align_up_unfold.
  pose proof (wrap_range (x + wsub a 1)) as Hy. fold (wadd x (wsub a 1)) in Hy.
  set (y := wadd x (wsub a 1)) in *. set (m := wsub a 1).
  assert (Hm : is_word m) by apply wrap_range.
  unfold is_word in *.
  assert (Hl : Z.land y (Z.lnot m) = y - Z.land y m)
    by (symmetry; apply Z.sub_land_same_l).
  assert (0 <= Z.land y m) by (apply Z.land_nonneg; lia).
  assert (0 <= Z.land y (Z.lnot m)) by (apply Z.land_nonneg; lia).
  lia.
Qed.

(** What the mask computes, for any alignment: the sum minus its low bits
    under the mask. *)
Lemma align_up_sub (x a : Z) :
  align_up x a = wadd x (wsub a 1) - Z.land (wadd x (wsub a 1)) (wsub a 1).
Proof. rewrite align_up_unfold. symmetry. apply Z.sub_land_same_l. Qed.

Lemma land_bounds (y m : Z) : 0 <= y -> 0 <= m -> 0 <= Z.land y m <= m.
Proof.
  intros Hy Hm. split; [apply Z.land_nonneg; lia|].
  pose proof (Z.sub_land_same_l m y) as H.
  assert (0 <= Z.land m (Z.lnot y)) by (apply Z.land_nonneg; lia).
  rewrite (Z.land_comm y m). lia.
Qed.

(** Rounding never goes below the argument nor a whole [a] above it, as
    long as the addition does not wrap (power of two or not). *)
Lemma align_up_bounds (x a : Z) :
  0 <= x -> 1 <= a -> x + (a - 1) < modulus ->
  x <= align_up x a <= x + (a - 1).
Proof.
  intros Hx Ha Hfit. rewrite align_up_sub.
  assert (Hm : wsub a 1 = a - 1) by (apply wsub_small; unfold is_word; lia).
  rewrite Hm.
  assert (Hy : wadd x (a - 1) = x + (a - 1))
    by (apply wadd_small; unfold is_word; lia).
  rewrite Hy.
  pose proof (land_bounds (x + (a - 1)) (a - 1)). lia.
Qed.

Lemma align_up_0_l (a : Z) : align_up 0 a = 0.
Proof.
  rewrite align_up_sub. unfold wadd. rewrite Z.add_0_l.
  unfold wsub. rewrite (wrap_small (wrap (a - 1))) by apply wrap_range.
  rewrite Z.land_diag. lia.
Qed.

(** With a zero alignment the mask is empty: everything rounds to 0. *)
Lemma align_up_0_r (x : Z) : align_up x 0 = 0.
Proof.
  rewrite align_up_unfold.
  replace (wsub 0 1) with (Z.ones width) by reflexivity.
  rewrite <- Z.ldiff_land, Z.ldiff_ones_r by (unfold width; lia).
  pose proof (wrap_range (x + Z.ones width)) as H. fold (wadd x (Z.ones width)) in H.
  unfold is_word, modulus in H.
  rewrite Z.shiftr_div_pow2 by (unfold width; lia).
  rewrite Z.div_small by exact H. reflexivity.
Qed.

(** For a power of two the mask trick is rounding up to a multiple. *)
Lemma align_up_pow2 (x k : Z) :
  0 <= k -> 0 <= x -> x + (2 ^ k - 1) < modulus ->
  align_up x (2 ^ k) = 2 ^ k * ((x + (2 ^ k - 1)) / 2 ^ k).
Proof.
  intros Hk Hx Hfit.
  assert (Hp : 0 < 2 ^ k) by (apply Z.pow_pos_nonneg; lia).
  rewrite align_up_unfold.
  assert (Hm : wsub (2 ^ k) 1 = Z.ones k).
  { rewrite Z.ones_equiv, <- Z.sub_1_r. apply wsub_small. unfold is_word; lia. }
  rewrite Hm, Z.ones_equiv, <- Z.sub_1_r.
  rewrite wadd_small by (unfold is_word; lia).
  rewrite <- Z.ldiff_land.
  replace (2 ^ k - 1) with (Z.ones k) at 2
    by (rewrite Z.ones_equiv; lia).
  rewrite Z.ldiff_ones_r by lia.
  rewrite Z.shiftl_mul_pow2, Z.shiftr_div_pow2 by lia. lia.
Qed.

Lemma align_up_pow2_multiple (x k : Z) :
  0 <= k -> 0 <= x -> x + (2 ^ k - 1) < modulus ->
  (2 ^ k | align_up x (2 ^ k)).
Proof.
  intros. rewrite align_up_pow2 by assumption.
  apply Z.divide_factor_l.
Qed.

(** A multiple of a power of two is left alone. *)
Lemma align_up_pow2_fixed (q k : Z) :
  0 <= k -> 0 <= q -> 2 ^ k * q + (2 ^ k - 1) < modulus ->
  align_up (2 ^ k * q) (2 ^ k) = 2 ^ k * q.
Proof.
  intros Hk Hq Hfit.
  assert (Hp : 0 < 2 ^ k) by (apply Z.pow_pos_nonneg; lia).
  rewrite align_up_pow2 by nia. f_equal.
  rewrite (Z.mul_comm (2 ^ k) q), Z.div_add_l by lia.
  rewrite Z.div_small by lia. lia.
Qed.

(** The allocation alignment: sizes up to [SIZE_MAX - 7] round up to the
    next multiple of 8 ... *)
Lemma align_up_8 (size : Z) :
  0 <= size <= SIZE_MAX - 7 ->
  align_up size ARENA_ALIGNMENT = 8 * ((size + 7) / 8).
Proof.
  intros H. unfold SIZE_MAX in H.
  change ARENA_ALIGNMENT with (2 ^ 3).
  rewrite align_up_pow2 by (change (2 ^ 3 - 1) with 7; lia).
  reflexivity.
Qed.


(** ... and the sizes above [SIZE_MAX - 7] wrap around to 0. *)
Lemma align_up_8_wraps (size : Z) :
  SIZE_MAX - 7 < size <= SIZE_MAX ->
  align_up size ARENA_ALIGNMENT = 0.
Proof.
  intros H. unfold SIZE_MAX in H. rewrite modulus_eq in H.
  assert (E : size = 18446744073709551609 \/ size = 18446744073709551610
           \/ size = 18446744073709551611 \/ size = 18446744073709551612
           \/ size = 18446744073709551613 \/ size = 18446744073709551614
           \/ size = 18446744073709551615) by lia.
  repeat (destruct E as [E | E]; [subst size; vm_compute; reflexivity|]).
  subst size; vm_compute; reflexivity.
Qed.

(** ** One call of [arena_alloc] *)

(** The three ways through the function, by the two comparisons and the
    answer of the OS. *)
Lemma arena_alloc_out_of_space os a size log :
  limit a < candidate a size ->
  arena_alloc os a size log = (None, a, log).
Proof.
  intros H. unfold arena_alloc.
  apply Z.ltb_lt in H. rewrite H. reflexivity.
Qed.

Lemma arena_alloc_committed os a size log :
  candidate a size <= limit a ->
  candidate a size <= commit a ->
  arena_alloc os a size log =
    (Some (cursor a), set_cursor a (candidate a size), log).
Proof.
  intros Hl Hc. unfold arena_alloc.
  apply Z.ltb_ge in Hl, Hc. rewrite Hl. unfold bind. rewrite Hc.
  reflexivity.
Qed.

Lemma arena_alloc_grow os a size log :
  let next := candidate a size in
  let need := commit_need a next in
  next <= limit a ->
  commit a < next ->
  arena_alloc os a size log =
    if commit_result os log (commit a) need
    then (Some (cursor a),
          set_cursor (set_commit a (wadd (commit a) need)) next,
          log ++ [Commit (commit a) need])
    else (None, a, log ++ [Commit (commit a) need]).
Proof.
  intros next need Hl Hc. unfold arena_alloc. fold next.
  apply Z.ltb_ge in Hl. apply Z.ltb_lt in Hc. rewrite Hl.
  unfold bind. rewrite Hc. unfold os_commit. fold need.
  destruct (commit_result os log (commit a) need); reflexivity.
Qed.

Ltac alloc_cases os a size log :=
  let Hl := fresh "Hlimit" in
  let Hc := fresh "Hcommit" in
  let Hok := fresh "Hok" in
  destruct (Z.lt_ge_cases (limit a) (candidate a size)) as [Hl | Hl];
  [ rewrite (arena_alloc_out_of_space os a size log Hl)
  | destruct (Z.lt_ge_cases (commit a) (candidate a size)) as [Hc | Hc];
    [ rewrite (arena_alloc_grow os a size log Hl Hc);
      destruct (commit_result os log (commit a)
                  (commit_need a (candidate a size))) eqn:Hok
    | rewrite (arena_alloc_committed os a size log Hl Hc) ] ].

(** A failed call leaves the struct alone, whatever the reason. *)
Lemma arena_alloc_none_unchanged os a size log :
  fst (fst (arena_alloc os a size log)) = None ->
  snd (fst (arena_alloc os a size log)) = a.
Proof. alloc_cases os a size log; simpl; congruence. Qed.

(** A successful call returns the old cursor and moves it to the candidate;
    [base], [limit] and the two sizes are never written. *)
Lemma arena_alloc_some os a size log p :
  fst (fst (arena_alloc os a size log)) = Some p ->
  p = cursor a /\
  cursor (snd (fst (arena_alloc os a size log))) = candidate a size.
Proof. alloc_cases os a size log; simpl; intros E; inversion E; auto. Qed.

Lemma arena_alloc_frame os a size log :
  let a' := snd (fst (arena_alloc os a size log)) in
  base a' = base a /\ limit a' = limit a /\
  reserve_size a' = reserve_size a /\ commit_step a' = commit_step a.
Proof. alloc_cases os a size log; simpl; auto. Qed.

(** The [return NULL] statements.  [arena_alloc] leaves through one of
    them exactly when the candidate
    [cursor + align_up(size, 8)] lies past [limit] (out of space), or it lies
    past [commit] and the [os_commit] call made for it fails.  Every failed
    call leaves the Arena exactly as it was, and the out-of-space failure
    makes no OS call at all. *)
Theorem arena_alloc_fails_iff (os : OS) (a : Arena) (size : Z)
    (log : list os_call) :
  let next := candidate a size in
  let r := arena_alloc os a size log in
  (fst (fst r) = None <->
     limit a < next \/
     (next <= limit a /\ commit a < next /\
      commit_result os log (commit a) (commit_need a next) = false))
  /\ (fst (fst r) = None -> snd (fst r) = a)
  /\ (limit a < next -> snd r = log)
  /\ (next <= limit a -> commit a < next ->
      snd r = log ++ [Commit (commit a) (commit_need a next)]).
Proof.
  cbv zeta. repeat split.
  - alloc_cases os a size log; simpl; intros E; try discriminate; auto.
  - alloc_cases os a size log; simpl; auto.
    + intros [F | (_ & _ & F)]; [lia | congruence].
    + intros [F | (_ & F & _)]; lia.
  - apply arena_alloc_none_unchanged.
  - intros H. now rewrite arena_alloc_out_of_space.
  - intros Hl Hc. rewrite arena_alloc_grow by assumption.
    destruct (commit_result _ _ _ _); reflexivity.
Qed.

(** ** The call log and the struct *)

Lemma committed_bytes_app (l1 l2 : list os_call) :
  committed_bytes (l1 ++ l2) = committed_bytes l1 + committed_bytes l2.
Proof.
  induction l1 as [| c l1 IH]; simpl; [reflexivity|].
  destruct c; rewrite IH; lia.
Qed.

Lemma set_cursor_same (a : Arena) : set_cursor a (cursor a) = a.
Proof. destruct a; reflexivity. Qed.

(** ** [arena_init] *)

Lemma arena_init_unfold os a R C log :
  let page := os_page os in
  let rs := align_up R page in
  let cs := align_up C page in
  let total := wadd rs (wmul page 2) in
  let mem := reserve_result os (log ++ [PageSize]) total in
  let b := wadd mem page in
  arena_init os a R C log =
    if mem =? 0
    then (false, a, log ++ [PageSize; Reserve total])
    else (true, mkArena b b b (wadd b rs) rs cs,
          log ++ [PageSize; Reserve total; Guard mem page;
                  Guard (wadd b rs) page]).
Proof.
  cbv zeta. unfold arena_init, bind, os_page_size, os_reserve, os_guard, ret.
  simpl. destruct (_ =? 0); rewrite <- ?app_assoc; reflexivity.
Qed.

(** [arena_init] by its two ways out.  It records [align_up] of both
    requests against the page
    size (for a power-of-two page and a request that does not wrap: the least
    page multiple not below the request).  When [os_reserve] answers NULL it
    returns 0 straight after that call and [*a] is not written.  Otherwise it
    returns 1 with [cursor = commit = base], [base] one guard page into the
    reservation and [limit = base + reserve_size]; no [os_commit] call has
    been made, so no byte is committed. *)
Theorem arena_init_spec (os : OS) (a : Arena) (R C : Z) (log : list os_call) :
  let page := os_page os in
  let rs := align_up R page in
  let cs := align_up C page in
  let total := wadd rs (wmul page 2) in
  let mem := reserve_result os (log ++ [PageSize]) total in
  let r := arena_init os a R C log in
  let a' := snd (fst r) in
  (mem = 0 ->
     r = (false, a, log ++ [PageSize; Reserve total]))
  /\ (mem <> 0 ->
     fst (fst r) = true /\
     base a' = wadd mem page /\ cursor a' = base a' /\ commit a' = base a' /\
     limit a' = wadd (base a') rs /\
     (is_word (base a' + rs) -> limit a' = base a' + reserve_size a') /\
     reserve_size a' = rs /\ commit_step a' = cs /\
     snd r = log ++ [PageSize; Reserve total; Guard mem page;
                     Guard (limit a') page] /\
     committed_bytes (snd r) = committed_bytes log)
  /\ (forall k x, 0 <= k -> page = 2 ^ k -> 0 <= x -> x + (page - 1) < modulus ->
      (page | align_up x page) /\ x <= align_up x page < x + page).
Proof.
  cbv zeta. rewrite arena_init_unfold. split; [|split].
  - intros E. rewrite E. reflexivity.
  - intros E. apply Z.eqb_neq in E. rewrite E. simpl.
    repeat split; try reflexivity.
    + intros W. now apply wadd_small.
    + rewrite committed_bytes_app. simpl. lia.
  - intros k x Hk Hpage Hx Hfit. rewrite Hpage in *.
    assert (0 < 2 ^ k) by (apply Z.pow_pos_nonneg; lia).
    split; [now apply align_up_pow2_multiple|].
    pose proof (align_up_bounds x (2 ^ k)) as B. lia.
Qed.

(** ** [arena_reset] and reuse of committed memory *)

Lemma alloc_all_cons os s rest a log :
  alloc_all os (s :: rest) a log =
    let r := arena_alloc os a s log in
    let rs := alloc_all os rest (snd (fst r)) (snd r) in
    (fst (fst r) :: fst (fst rs), snd (fst rs), snd rs).
Proof.
  simpl. unfold bind, ret.
  destruct (arena_alloc os a s log) as [[p a1] log1]. simpl.
  destruct (alloc_all os rest a1 log1) as [[ps a2] log2]. reflexivity.
Qed.

(** While the candidates stay within the committed range, a run makes no OS
    call and [commit] stays where it is. *)
Lemma alloc_all_quiet os sizes : forall a log,
  Forall (fun c => c <= commit a) (candidates os sizes a log) ->
  snd (alloc_all os sizes a log) = log /\
  commit (snd (fst (alloc_all os sizes a log))) = commit a.
Proof.
  induction sizes as [| s rest IH]; intros a log H.
  - split; reflexivity.
  - simpl candidates in H. inversion H as [| c cs Hc Hrest]; subst.
    rewrite alloc_all_cons. cbv zeta. simpl.
    assert (Hstep : snd (arena_alloc os a s log) = log /\
                    commit (snd (fst (arena_alloc os a s log))) = commit a).
    { destruct (Z.lt_ge_cases (limit a) (candidate a s)) as [Hl | Hl].
      - rewrite arena_alloc_out_of_space by assumption. split; reflexivity.
      - rewrite arena_alloc_committed by assumption. split; reflexivity. }
    destruct Hstep as [Hlog Hcommit].
    rewrite Hlog in Hrest |- *. rewrite <- Hcommit in Hrest.
    destruct (IH _ _ Hrest) as [IH1 IH2]. split; congruence.
Qed.

(** C6.  [arena_reset] writes [cursor = base] and nothing else (it makes no
    OS call either: it does not touch the log).  After it, a run of
    [arena_alloc] calls makes no OS call, and leaves [commit] alone, for as
    long as the candidate cursor does not pass the [commit] reached before
    the reset. *)
Theorem arena_reset_spec (os : OS) (a : Arena) (sizes : list Z)
    (log : list os_call) :
  let a0 := arena_reset a in
  let r := alloc_all os sizes a0 log in
  cursor a0 = base a /\ base a0 = base a /\ commit a0 = commit a /\
  limit a0 = limit a /\ reserve_size a0 = reserve_size a /\
  commit_step a0 = commit_step a /\
  (Forall (fun c => c <= commit a) (candidates os sizes a0 log) ->
   snd r = log /\ commit (snd (fst r)) = commit a).
Proof.
  cbv zeta. repeat split.
  - apply (alloc_all_quiet os sizes (arena_reset a) log H).
  - apply (alloc_all_quiet os sizes (arena_reset a) log H).
Qed.

(** ** Zero-size and wrapping requests *)

Lemma candidate_zero (a : Arena) (size : Z) :
  is_word (cursor a) ->
  align_up size ARENA_ALIGNMENT = 0 ->
  candidate a size = cursor a.
Proof.
  intros Hw E. unfold candidate. rewrite E.
  unfold wadd. rewrite Z.add_0_r. now apply wrap_small.
Qed.

(** A request whose aligned size is 0 is served in place, as soon as the
    cursor is within the committed and the reserved range. *)
Lemma arena_alloc_in_place os a size log :
  is_word (cursor a) -> cursor a <= commit a -> cursor a <= limit a ->
  align_up size ARENA_ALIGNMENT = 0 ->
  arena_alloc os a size log = (Some (cursor a), a, log).
Proof.
  intros Hw Hc Hl E.
  pose proof (candidate_zero a size Hw E) as Hn.
  rewrite arena_alloc_committed by lia.
  now rewrite Hn, set_cursor_same.
Qed.

(** Zero-size requests in a given state.  On an arena whose cursor is an
    address within the committed
    and the reserved range, [arena_alloc(a, 0)] succeeds: [align_up(0, 8)]
    is 0, the call returns the current cursor and leaves the arena (and the
    OS) untouched, so any number of zero-size calls in a row return that same
    address. *)
Theorem arena_alloc_zero_size (os : OS) (a : Arena) (log : list os_call)
    (n : nat) :
  is_word (cursor a) -> cursor a <= commit a -> cursor a <= limit a ->
  align_up 0 ARENA_ALIGNMENT = 0 /\
  arena_alloc os a 0 log = (Some (cursor a), a, log) /\
  alloc_all os (repeat 0 n) a log = (repeat (Some (cursor a)) n, a, log).
Proof.
  intros Hw Hc Hl.
  assert (E : align_up 0 ARENA_ALIGNMENT = 0) by apply align_up_0_l.
  split; [exact E|]. split; [now apply arena_alloc_in_place|].
  induction n as [| n IH].
  - reflexivity.
  - cbn [repeat]. rewrite alloc_all_cons. cbv zeta.
    rewrite arena_alloc_in_place by assumption. simpl.
    rewrite IH. reflexivity.
Qed.

(** C9.  Nothing in [arena_alloc] checks for overflow.  Every size above
    [SIZE_MAX - 7] is more than the space left in the arena, yet
    [align_up(size, 8)] wraps around to 0 for it, so the call succeeds: it
    returns the old cursor and reserves nothing. *)
Theorem arena_alloc_size_wraps (os : OS) (a : Arena) (log : list os_call)
    (size : Z) :
  ARENA_ALIGNMENT <= cursor a -> cursor a <= commit a ->
  cursor a <= limit a -> limit a < modulus ->
  SIZE_MAX - 7 < size <= SIZE_MAX ->
  limit a - cursor a < size /\
  align_up size ARENA_ALIGNMENT = 0 /\
  arena_alloc os a size log = (Some (cursor a), a, log).
Proof.
  intros Hlow Hc Hl Hm Hs.
  pose proof (align_up_8_wraps size Hs) as E.
  split; [|split].
  - unfold SIZE_MAX, ARENA_ALIGNMENT in *. lia.
  - exact E.
  - apply arena_alloc_in_place; try assumption.
    unfold is_word, ARENA_ALIGNMENT in *. lia.
Qed.

Lemma arena_alloc_size_wraps_witness :
  let r0 := arena_init os4k arena0 MiB KiB64 [] in
  let a := snd (fst r0) in
  limit a - cursor a < SIZE_MAX /\
  align_up SIZE_MAX ARENA_ALIGNMENT = 0 /\
  arena_alloc os4k a SIZE_MAX (snd r0) = (Some (cursor a), a, snd r0).
Proof.
  apply (arena_alloc_size_wraps os4k
           (snd (fst (arena_init os4k arena0 MiB KiB64 [])))
           (snd (arena_init os4k arena0 MiB KiB64 [])) SIZE_MAX).
  - vm_compute; discriminate.
  - vm_compute; discriminate.
  - vm_compute; discriminate.
  - vm_compute; reflexivity.
  - unfold SIZE_MAX; rewrite modulus_eq; lia.
Defined.

(** ** Layout of a run of successful allocations *)

Lemma sum_aligned_nonneg (sizes : list Z) : 0 <= sum_aligned sizes.
Proof.
  induction sizes as [| s rest IH]; simpl; [lia|].
  pose proof (align_up_word s ARENA_ALIGNMENT) as W. unfold is_word in W. lia.
Qed.




(** A run of successful calls whose running total stays inside the address
    space bumps the cursor by the aligned sizes. *)
Lemma alloc_all_bump os (sizes : list Z) : forall a log,
  0 <= cursor a ->
  cursor a + sum_aligned sizes < modulus ->
  all_succeed (fst (fst (alloc_all os sizes a log))) ->
  let a' := snd (fst (alloc_all os sizes a log)) in
  base a' = base a /\
  cursor a' = cursor a + sum_aligned sizes /\
  fst (fst (alloc_all os sizes a log)) = map Some (bump_addrs (cursor a) sizes).
Proof.
  induction sizes as [| s rest IH]; intros a log Hc Hfit Hok; cbv zeta.
  - simpl. repeat split. lia.
  - rewrite alloc_all_cons in Hok |- *. cbv zeta in Hok |- *.
    simpl in Hok |- *. simpl in Hfit.
    inversion Hok as [| r rs Hr Hrs]; subst.
    destruct (fst (fst (arena_alloc os a s log))) as [p |] eqn:E;
      [| congruence].
    destruct (arena_alloc_some os a s log p E) as [Hp Hnext].
    destruct (arena_alloc_frame os a s log) as (Hbase & _).
    pose proof (align_up_word s ARENA_ALIGNMENT) as W. unfold is_word in W.
    pose proof (sum_aligned_nonneg rest) as Hsum.
    assert (Hcand : candidate a s = cursor a + align_up s ARENA_ALIGNMENT).
    { unfold candidate. apply wadd_small. unfold is_word. lia. }
    rewrite Hcand in Hnext.
    destruct (IH (snd (fst (arena_alloc os a s log)))
                 (snd (arena_alloc os a s log))) as (IH1 & IH2 & IH3).
    + lia.
    + lia.
    + exact Hrs.
    + rewrite IH1, IH2, IH3, Hnext, Hbase, Hp. repeat split. lia.
Qed.




(** ** A zero-byte reservation *)

(** Right after [arena_init(a, 0, C)].  When it succeeds the usable range is
    empty: [reserve_size = 0] and [cursor = commit = limit = base].  From
    then on a request whose aligned size is positive and whose candidate
    [base + align_up(s, 8)] does not wrap past the end of the address space
    fails, leaving the arena and the OS untouched, while a zero-size request
    returns [base], again without any OS call. *)
Theorem arena_init_zero_reserve (os : OS) (a : Arena) (C s : Z)
    (log log' : list os_call) :
  let r := arena_init os a 0 C log in
  let a' := snd (fst r) in
  fst (fst r) = true ->
  reserve_size a' = 0 /\ limit a' = base a' /\
  cursor a' = base a' /\ commit a' = base a' /\
  (0 < align_up s ARENA_ALIGNMENT ->
   base a' + align_up s ARENA_ALIGNMENT < modulus ->
   arena_alloc os a' s log' = (None, a', log')) /\
  arena_alloc os a' 0 log' = (Some (base a'), a', log').
Proof.
  cbv zeta. rewrite arena_init_unfold. cbv zeta.
  destruct (_ =? 0); simpl; [discriminate|]. intros _.
  rewrite align_up_0_l.
  set (b := wadd (reserve_result os (log ++ [PageSize])
                    (wadd 0 (wmul (os_page os) 2))) (os_page os)).
  assert (Hb : is_word b) by apply wrap_range.
  assert (Hlim : wadd b 0 = b)
    by (unfold wadd; rewrite Z.add_0_r; now apply wrap_small).
  rewrite Hlim.
  set (a' := mkArena b b b b 0 (align_up C (os_page os))).
  repeat split.
  - intros Hpos Hfit. apply arena_alloc_out_of_space.
    unfold candidate. simpl.
    rewrite wadd_small by (unfold is_word in *; lia). lia.
  - apply (arena_alloc_in_place os a' 0 log').
    + exact Hb.
    + simpl; lia.
    + simpl; lia.
    + apply align_up_0_l.
Qed.

(** Where C10 stops holding: a request large enough to wrap the candidate.
    After [arena_init(a, 0, 64 KiB)] the request [SIZE_MAX - 7] has the
    positive aligned size [2^64 - 8], its candidate wraps to [base - 8],
    which is not past [limit], and the call succeeds with [base]. *)
Lemma arena_init_zero_reserve_wraps :
  let r := arena_init os4k arena0 0 65536 [] in
  let a' := snd (fst r) in
  let s := SIZE_MAX - 7 in
  fst (fst r) = true /\
  0 < align_up s ARENA_ALIGNMENT /\
  arena_alloc os4k a' s (snd r) =
    (Some (base a'), set_cursor a' (base a' - 8), snd r) /\
  fst (fst (arena_alloc os4k a' s (snd r))) <> None.
Proof.
  cbv zeta. repeat split.
  vm_compute. discriminate.
Qed.

(** ** Commit growth *)

(** Rounding a positive shortfall up to a power-of-two step stays within any
    multiple of the step that covers the shortfall. *)
Lemma align_up_within (k x L : Z) :
  0 <= k -> 0 < x <= L -> L < modulus -> (2 ^ k | L) ->
  x <= align_up x (2 ^ k) <= L /\ (2 ^ k | align_up x (2 ^ k)).
Proof.
  intros Hk Hx HL [q Hq].
  assert (Hp : 0 < 2 ^ k) by (apply Z.pow_pos_nonneg; lia).
  assert (Hq1 : 1 <= q) by nia.
  assert (Hk64 : k < width).
  { destruct (Z.lt_ge_cases k width) as [|Hge]; [assumption|].
    apply (Z.pow_le_mono_r 2) in Hge; [|lia]. fold modulus in Hge. nia. }
  assert (Hmod : modulus = 2 ^ k * 2 ^ (width - k)).
  { unfold modulus. rewrite <- Z.pow_add_r by lia. f_equal. lia. }
  assert (Hfit : L + 2 ^ k <= modulus).
  { assert (0 < 2 ^ (width - k)) by (apply Z.pow_pos_nonneg; lia).
    assert (q < 2 ^ (width - k)) by nia. nia. }
  assert (E : align_up x (2 ^ k) = 2 ^ k * ((x + (2 ^ k - 1)) / 2 ^ k))
    by (apply align_up_pow2; lia).
  pose proof (Z.mul_div_le (x + (2 ^ k - 1)) (2 ^ k) Hp) as Hlo.
  pose proof (Z.mul_succ_div_gt (x + (2 ^ k - 1)) (2 ^ k) Hp) as Hhi.
  set (m := (x + (2 ^ k - 1)) / 2 ^ k) in *.
  split; [| rewrite E; apply Z.divide_factor_l].
  rewrite E. split; [lia|].
  assert (m < q + 1) by nia. nia.
Qed.

Lemma arena_reset_steady k a : steady k a -> steady k (arena_reset a).
Proof.
  unfold steady, in_address_space, ordered, arena_reset. simpl.
  intros (Hk & Hs & Hsp & Ho & Hc & Hl). repeat split; try tauto; lia.
Qed.

(** [arena_alloc] keeps a steady arena steady, whether it succeeds or
    fails, provided the candidate itself does not wrap. *)
Lemma arena_alloc_steady os k a size log :
  steady k a ->
  cursor a + align_up size ARENA_ALIGNMENT < modulus ->
  steady k (snd (fst (arena_alloc os a size log))).
Proof.
  intros St Hfit.
  destruct St as (Hk & Hs & [Hb Hlim] & (Ho1 & Ho2 & Ho3) & Hdc & Hdl).
  pose proof (align_up_word size ARENA_ALIGNMENT) as W. unfold is_word in W.
  assert (Hcand : candidate a size = cursor a + align_up size ARENA_ALIGNMENT)
    by (unfold candidate; apply wadd_small; unfold is_word; lia).
  alloc_cases os a size log; simpl.
  - unfold steady, in_address_space, ordered. tauto.
  - (* the commit call succeeded *)
    set (x := wsub (candidate a size) (commit a)).
    assert (Hx : x = candidate a size - commit a)
      by (apply wsub_small; unfold is_word; lia).
    assert (Hdiv : (2 ^ k | limit a - commit a)).
    { replace (limit a - commit a)
        with ((limit a - base a) - (commit a - base a)) by lia.
      now apply Z.divide_sub_r. }
    destruct (align_up_within k x (limit a - commit a)) as [Hneed Hmul];
      try lia; try assumption.
    unfold commit_need. fold x. rewrite Hs.
    assert (Hc' : wadd (commit a) (align_up x (2 ^ k))
                  = commit a + align_up x (2 ^ k))
      by (apply wadd_small; unfold is_word; lia).
    unfold steady, in_address_space, ordered. simpl. rewrite Hc'.
    repeat split; try assumption; try lia.
    replace (commit a + align_up x (2 ^ k) - base a)
      with ((commit a - base a) + align_up x (2 ^ k)) by lia.
    now apply Z.divide_add_r.
  - unfold steady, in_address_space, ordered. tauto.
  - unfold steady, in_address_space, ordered. simpl.
    repeat split; try assumption; lia.
Qed.

(** C2, at the failing input.  With 4 KiB pages, [arena_init(60 KiB, 64 KiB)]
    sets up an ordered arena and guards the page at [limit]; the first
    [arena_alloc(8)] then asks the OS for a whole 64 KiB step starting at
    [base], so [commit] ends one page past [limit], at the end of the
    trailing guard page, which the commit has made accessible. *)
Theorem arena_alloc_commit_past_limit :
  let r0 := arena_init os4k arena0 61440 65536 [] in
  let a := snd (fst r0) in
  let r := arena_alloc os4k a 8 (snd r0) in
  let a' := snd (fst r) in
  fst (fst r0) = true /\ ordered a /\
  snd r0 = [PageSize; Reserve 69632; Guard (base a - 4096) 4096;
            Guard (limit a) 4096] /\
  fst (fst r) = Some (base a) /\
  snd r = snd r0 ++ [Commit (base a) 65536] /\
  limit a' = base a + 61440 /\ commit a' = limit a' + 4096 /\
  ~ ordered a'.
Proof.
  cbv zeta. split; [reflexivity|].
  split; [unfold ordered; vm_compute; repeat split; discriminate|].
  split; [reflexivity|]. split; [reflexivity|]. split; [reflexivity|].
  split; [reflexivity|]. split; [reflexivity|].
  unfold ordered. vm_compute. intros (_ & _ & H). apply H. reflexivity.
Qed.

(** A second way out of the ordering: a commit step of 0 (accepted by
    [arena_init]) makes every growth 0 bytes long, so the cursor runs ahead
    of [commit]. *)
Lemma arena_alloc_zero_step :
  let r0 := arena_init os4k arena0 4096 0 [] in
  let a := snd (fst r0) in
  let r := arena_alloc os4k a 8 (snd r0) in
  let a' := snd (fst r) in
  fst (fst r0) = true /\ commit_step a = 0 /\
  fst (fst r) = Some (base a) /\
  snd r = snd r0 ++ [Commit (base a) 0] /\
  commit a' = base a /\ cursor a' = base a + 8 /\ ~ ordered a'.
Proof.
  cbv zeta. repeat split; try (vm_compute; congruence).
  unfold ordered. vm_compute. intros (_ & H & _). apply H. reflexivity.
Qed.

(** C4, at the failing input.  With 4 KiB pages, [arena_init(1 MiB, 12 KiB)]
    records the step 12288, which is not a power of two; the first
    [arena_alloc(8)] computes [align_up(8, 12288) = 4096] and commits one
    page, so [commit - base] is not a multiple of [commit_step]. *)
Theorem arena_alloc_partial_step :
  let r0 := arena_init os4k arena0 1048576 12288 [] in
  let a := snd (fst r0) in
  let r := arena_alloc os4k a 8 (snd r0) in
  let a' := snd (fst r) in
  fst (fst r0) = true /\ commit_step a = 12288 /\ commit a = base a /\
  fst (fst r) = Some (base a) /\
  snd r = snd r0 ++ [Commit (base a) 4096] /\
  commit_step a' = 12288 /\ commit a' - base a' = 4096 /\
  ~ (commit_step a' | commit a' - base a').
Proof.
  cbv zeta.
  set (a' := snd (fst (arena_alloc os4k _ 8 _))).
  assert (E1 : commit_step a' = 12288) by (vm_compute; reflexivity).
  assert (E2 : commit a' - base a' = 4096) by (vm_compute; reflexivity).
  repeat split; try (vm_compute; congruence).
  rewrite E1, E2. intros [z Hz]. lia.
Qed.

Lemma arena_init_steady os a R C log k :
  let r := arena_init os a R C log in
  let a' := snd (fst r) in
  fst (fst r) = true ->
  0 <= k -> commit_step a' = 2 ^ k -> (2 ^ k | reserve_size a') ->
  base a' + reserve_size a' < modulus ->
  steady k a'.
Proof.
  cbv zeta. rewrite arena_init_unfold. cbv zeta.
  destruct (_ =? 0); simpl; [discriminate|].
  intros _ Hk Hs Hd Hfit.
  set (b := wadd _ (os_page os)) in *.
  pose proof (wrap_range (reserve_result os (log ++ [PageSize])
     (wadd (align_up R (os_page os)) (wmul (os_page os) 2)) + os_page os))
    as Hb. fold (wadd (reserve_result os (log ++ [PageSize])
     (wadd (align_up R (os_page os)) (wmul (os_page os) 2))) (os_page os)) in Hb.
  fold b in Hb.
  pose proof (align_up_word R (os_page os)) as Hr.
  unfold is_word in Hb, Hr.
  assert (Hl : wadd b (align_up R (os_page os)) = b + align_up R (os_page os))
    by (apply wadd_small; unfold is_word; lia).
  unfold steady, in_address_space, ordered. simpl. rewrite Hl.
  repeat split; try assumption; try lia.
  - replace (b - b) with 0 by lia. apply Z.divide_0_r.
  - replace (b + align_up R (os_page os) - b) with (align_up R (os_page os))
      by lia. exact Hd.
Qed.

(** ** The benchmark scenario: 1 MiB in 64-byte blocks *)

Lemma align_up_page_multiple (k j : Z) :
  0 <= k <= j -> j < 63 ->
  align_up (2 ^ j) (2 ^ k) = 2 ^ j.
Proof.
  intros Hk Hj.
  assert (E : 2 ^ j = 2 ^ k * 2 ^ (j - k)).
  { rewrite <- Z.pow_add_r by lia. f_equal. lia. }
  assert (0 < 2 ^ k) by (apply Z.pow_pos_nonneg; lia).
  assert (0 < 2 ^ (j - k)) by (apply Z.pow_pos_nonneg; lia).
  assert (2 ^ j <= 2 ^ 62) by (apply Z.pow_le_mono_r; lia).
  assert (2 ^ k <= 2 ^ j) by (apply Z.pow_le_mono_r; lia).
  rewrite E at 1. rewrite align_up_pow2_fixed; [lia | lia | lia |].
  rewrite <- E. rewrite modulus_eq.
  change (2 ^ 62) with 4611686018427387904 in *. lia.
Qed.

Section GrantingOS.

(** An OS with memory to spare: every [os_commit] call succeeds. *)
Variable os : OS.
Hypothesis commit_granted :
  forall l addr n, commit_result os l addr n = true.

(** A candidate within [limit] is served. *)
Lemma arena_alloc_granted a size log :
  candidate a size <= limit a ->
  fst (fst (arena_alloc os a size log)) = Some (cursor a) /\
  cursor (snd (fst (arena_alloc os a size log))) = candidate a size.
Proof.
  intros Hl. alloc_cases os a size log; simpl; try lia; auto.
  rewrite commit_granted in Hok. discriminate.
Qed.

(** [n] more 64-byte blocks fit after the first [i]. *)
Lemma alloc_all_blocks (n : nat) : forall i a log,
  steady 16 a -> limit a = base a + MiB ->
  0 <= i -> cursor a = base a + 64 * i -> i + Z.of_nat n <= 16384 ->
  let r := alloc_all os (repeat BENCH_ALLOC_SIZE n) a log in
  let a' := snd (fst r) in
  all_succeed (fst (fst r)) /\ length (fst (fst r)) = n /\
  steady 16 a' /\ base a' = base a /\ limit a' = limit a /\
  cursor a' = base a + 64 * (i + Z.of_nat n).
Proof.
  induction n as [| n IH]; intros i a log St Hlim Hi Hcur Hn; cbv zeta.
  - cbn [repeat alloc_all ret fst snd length]. split; [constructor|].
    split; [reflexivity|].
    split; [exact St|]. split; [reflexivity|]. split; [reflexivity|].
    rewrite Hcur. lia.
  - cbn [repeat]. rewrite alloc_all_cons. cbv zeta. cbn [fst snd length].
    assert (H64 : align_up BENCH_ALLOC_SIZE ARENA_ALIGNMENT = 64)
      by reflexivity.
    destruct St as (Hk & Hs & [Hb Hl] & Ho & Hd) eqn:HSt. clear HSt.
    unfold MiB in *.
    assert (Hcand : candidate a BENCH_ALLOC_SIZE = cursor a + 64).
    { unfold candidate. rewrite H64. apply wadd_small. unfold is_word. lia. }
    destruct (arena_alloc_granted a BENCH_ALLOC_SIZE log) as [Hres Hnext];
      [lia|].
    destruct (arena_alloc_frame os a BENCH_ALLOC_SIZE log) as (Fb & Fl & _).
    assert (St' : steady 16 (snd (fst (arena_alloc os a BENCH_ALLOC_SIZE log)))).
    { apply arena_alloc_steady.
      - unfold steady, in_address_space. tauto.
      - rewrite H64. lia. }
    set (a1 := snd (fst (arena_alloc os a BENCH_ALLOC_SIZE log))) in *.
    assert (L1 : limit a1 = base a1 + 1048576) by (rewrite Fl, Fb; lia).
    assert (L3 : cursor a1 = base a1 + 64 * (i + 1))
      by (rewrite Hnext, Hcand, Fb; lia).
    destruct (IH (i + 1) a1 (snd (arena_alloc os a BENCH_ALLOC_SIZE log))
                St' L1 ltac:(lia) L3 ltac:(lia))
      as (I1 & I2 & I3 & I4 & I5 & I6).
    split; [constructor; [rewrite Hres; discriminate | exact I1]|].
    split; [now rewrite I2|]. split; [exact I3|].
    split; [congruence|]. split; [congruence|].
    rewrite I6, Fb. lia.
Qed.

(** C8.  Take a page size dividing 64 KiB, an OS that grants every commit,
    and a successful [arena_init(1 MiB, 64 KiB)] whose usable range ends
    more than 64 bytes below the top of the address space.  Then 16384 calls
    of [arena_alloc(64)] in a row all succeed and leave the cursor at
    [limit]; the 16385th finds its candidate past [limit] and returns NULL
    without any OS call, the arena (cursor and commit included) unchanged. *)
Theorem bench_fills_one_MiB (a : Arena) (log : list os_call) (k : Z) :
  let r0 := arena_init os a MiB KiB64 log in
  let a0 := snd (fst r0) in
  let r := alloc_all os (repeat BENCH_ALLOC_SIZE (Z.to_nat 16384)) a0 (snd r0) in
  let a1 := snd (fst r) in
  0 <= k <= 16 -> os_page os = 2 ^ k ->
  fst (fst r0) = true ->
  base a0 + MiB + 64 < modulus ->
  all_succeed (fst (fst r)) /\ length (fst (fst r)) = Z.to_nat 16384 /\
  cursor a1 = limit a1 /\ limit a1 < candidate a1 BENCH_ALLOC_SIZE /\
  arena_alloc os a1 BENCH_ALLOC_SIZE (snd r) = (None, a1, snd r).
Proof.
  cbv zeta. intros Hk Hpage Hinit Htop.
  assert (Hrs : reserve_size (snd (fst (arena_init os a MiB KiB64 log))) = MiB
             /\ commit_step (snd (fst (arena_init os a MiB KiB64 log))) = 2 ^ 16
             /\ limit (snd (fst (arena_init os a MiB KiB64 log))) =
                wadd (base (snd (fst (arena_init os a MiB KiB64 log)))) MiB
             /\ cursor (snd (fst (arena_init os a MiB KiB64 log))) =
                base (snd (fst (arena_init os a MiB KiB64 log)))).
  { revert Hinit. rewrite arena_init_unfold. cbv zeta.
    destruct (_ =? 0); simpl; [discriminate|]. intros _.
    rewrite Hpage.
    change MiB with (2 ^ 20). change KiB64 with (2 ^ 16).
    rewrite !align_up_page_multiple by lia. repeat split. }
  destruct Hrs as (Hrs & Hcs & Hlim & Hcur).
  set (a0 := snd (fst (arena_init os a MiB KiB64 log))) in *.
  assert (Hb : 0 <= base a0).
  { subst a0. revert Hinit. rewrite arena_init_unfold. cbv zeta.
    destruct (_ =? 0); simpl; [discriminate|]. intros _.
    apply wrap_range. }
  assert (Hlim' : limit a0 = base a0 + MiB).
  { rewrite Hlim. apply wadd_small. unfold is_word, MiB in *. lia. }
  assert (St : steady 16 a0).
  { unfold a0 in *.
    apply (arena_init_steady os a MiB KiB64 log 16);
      [ exact Hinit | lia | exact Hcs
      | rewrite Hrs; exists 16; reflexivity
      | rewrite Hrs; unfold MiB in *; lia ]. }
  assert (Hcur' : cursor a0 = base a0 + 64 * 0) by (rewrite Hcur; lia).
  assert (Hn : 0 + Z.of_nat (Z.to_nat 16384) <= 16384)
    by (rewrite Z2Nat.id; lia).
  destruct (alloc_all_blocks (Z.to_nat 16384) 0 a0
              (snd (arena_init os a MiB KiB64 log))
              St Hlim' ltac:(lia) Hcur' Hn)
    as (R1 & R2 & R3 & R4 & R5 & R6).
  set (r := alloc_all os _ a0 _) in *.
  assert (Hend : cursor (snd (fst r)) = limit (snd (fst r))).
  { rewrite R6, R5, Hlim', Z2Nat.id by lia. unfold MiB. lia. }
  assert (Hpast : limit (snd (fst r)) < candidate (snd (fst r)) BENCH_ALLOC_SIZE).
  { unfold candidate. rewrite Hend.
    replace (align_up BENCH_ALLOC_SIZE ARENA_ALIGNMENT) with 64 by reflexivity.
    rewrite wadd_small; [lia|].
    unfold is_word. rewrite R5, Hlim'. unfold MiB in *. lia. }
  split; [exact R1|]. split; [exact R2|]. split; [exact Hend|].
  split; [exact Hpast|]. now apply arena_alloc_out_of_space.
Qed.

End GrantingOS.

Lemma bench_fills_one_MiB_witness :
  let r0 := arena_init os4k arena0 MiB KiB64 [] in
  let a0 := snd (fst r0) in
  let r := alloc_all os4k (repeat BENCH_ALLOC_SIZE (Z.to_nat 16384)) a0 (snd r0) in
  let a1 := snd (fst r) in
  all_succeed (fst (fst r)) /\ length (fst (fst r)) = Z.to_nat 16384 /\
  cursor a1 = limit a1 /\ limit a1 < candidate a1 BENCH_ALLOC_SIZE /\
  arena_alloc os4k a1 BENCH_ALLOC_SIZE (snd r) = (None, a1, snd r).
Proof.
  apply (bench_fills_one_MiB os4k (fun _ _ _ => eq_refl) arena0 [] 12).
  - lia.
  - reflexivity.
  - reflexivity.
  - vm_compute. reflexivity.
Defined.

(** ** [arena_destroy] *)

(** X13.  [arena_destroy] hands back exactly the range [arena_init]
    reserved: the [os_release] call starts one guard page before [base], at
    the address [os_reserve] returned, and spans the usable bytes plus both
    guard pages, the size [os_reserve] was asked for. *)
Lemma arena_destroy_releases os a R C log log' :
  let page := os_page os in
  let total := wadd (align_up R page) (wmul page 2) in
  let mem := reserve_result os (log ++ [PageSize]) total in
  let a' := snd (fst (arena_init os a R C log)) in
  is_word mem -> mem <> 0 ->
  arena_destroy os a' log' =
    (tt, log' ++ [PageSize; PageSize; Release mem total]).
Proof.
  cbv zeta. intros Hw Hmem. rewrite arena_init_unfold. cbv zeta.
  apply Z.eqb_neq in Hmem. rewrite Hmem. simpl.
  unfold arena_destroy, bind, os_page_size, os_release, ret. simpl.
  rewrite <- !app_assoc. simpl. repeat f_equal.
  unfold wsub, wadd, wrap.
  rewrite Zminus_mod_idemp_l.
  replace (reserve_result os (log ++ [PageSize])
             ((align_up R (os_page os) + wmul (os_page os) 2) mod modulus)
           + os_page os - os_page os)
    with (reserve_result os (log ++ [PageSize])
             ((align_up R (os_page os) + wmul (os_page os) 2) mod modulus))
    by lia.
  apply Z.mod_small. exact Hw.
Qed.

(** ** The failure paths on concrete runs *)

(** A refused reservation: two OS calls, [*a] as it was. *)
Example arena_init_refused :
  arena_init os_no_reserve arena0 MiB KiB64 [] =
    (false, arena0, [PageSize; Reserve 1056768]).
Proof. reflexivity. Qed.

(** A refused commit: the call is made, NULL comes back, nothing moved. *)
Example arena_alloc_commit_refused :
  let r0 := arena_init os_no_commit arena0 MiB KiB64 [] in
  let a := snd (fst r0) in
  fst (fst r0) = true /\
  arena_alloc os_no_commit a 64 (snd r0) =
    (None, a, snd r0 ++ [Commit (base a) 65536]).
Proof. split; reflexivity. Qed.

(** Reuse after a reset: 100 bytes commit one step; after [arena_reset] two
    64-byte blocks land on the same addresses without any OS call. *)
Example arena_reset_reuse :
  let r0 := arena_init os4k arena0 MiB KiB64 [] in
  let r1 := arena_alloc os4k (snd (fst r0)) 100 (snd r0) in
  let a := arena_reset (snd (fst r1)) in
  let r := alloc_all os4k [64; 64] a (snd r1) in
  snd r1 = snd r0 ++ [Commit (base a) 65536] /\
  Forall (fun c => c <= commit a) (candidates os4k [64; 64] a (snd r1)) /\
  fst (fst r) = [Some (base a); Some (base a + 64)] /\
  snd r = snd r1.
Proof.
  cbv zeta. split; [reflexivity|]. split; [|split; reflexivity].
  cbn [candidates].
  repeat (apply Forall_cons; [vm_compute; discriminate|]).
  apply Forall_nil.
Qed.

(** * Further properties of the code *)

(** ** [align_up] as a rounding function *)

(** X1.  For a power-of-two alignment and an argument that does not wrap,
    [align_up] is a multiple of the alignment, at least the argument and
    less than one alignment above it, and no multiple of the alignment lies
    between the argument and it. *)
Theorem align_up_least_multiple (k x : Z) :
  0 <= k -> 0 <= x -> x + (2 ^ k - 1) < modulus ->
  (2 ^ k | align_up x (2 ^ k)) /\
  x <= align_up x (2 ^ k) < x + 2 ^ k /\
  (forall m, (2 ^ k | m) -> x <= m -> align_up x (2 ^ k) <= m).
Proof.
  intros Hk Hx Hfit.
  assert (Hp : 0 < 2 ^ k) by (apply Z.pow_pos_nonneg; lia).
  split; [now apply align_up_pow2_multiple|].
  pose proof (align_up_bounds x (2 ^ k)) as B.
  split; [lia|].
  intros m [q Hq] Hm.
  rewrite align_up_pow2 by assumption.
  pose proof (Z.mul_div_le (x + (2 ^ k - 1)) (2 ^ k) Hp) as Hlo.
  set (c := (x + (2 ^ k - 1)) / 2 ^ k) in *.
  assert (c < q + 1) by nia. nia.
Qed.

Lemma align_up_least_multiple_witness :
  (2 ^ 12 | align_up 5000 (2 ^ 12)) /\
  5000 <= align_up 5000 (2 ^ 12) < 5000 + 2 ^ 12 /\
  (forall m, (2 ^ 12 | m) -> 5000 <= m -> align_up 5000 (2 ^ 12) <= m).
Proof.
  apply (align_up_least_multiple 12 5000).
  - lia.
  - lia.
  - vm_compute; reflexivity.
Defined.

(** The masked sum has no bit in common with the mask. *)
Lemma align_up_mask_free (x a : Z) : Z.land (align_up x a) (wsub a 1) = 0.
Proof.
  rewrite align_up_unfold, <- Z.land_assoc.
  rewrite (Z.land_comm (Z.lnot _)), Z.land_lnot_diag. apply Z.land_0_r.
Qed.

(** X2.  [align_up] is idempotent for every alignment, power of two or
    not, and for every argument, wrapped or not: an aligned value is left
    alone. *)
Theorem align_up_idempotent (x a : Z) :
  align_up (align_up x a) a = align_up x a.
Proof.
  set (z := align_up x a). set (m := wsub a 1).
  assert (Hz : is_word z) by apply align_up_word.
  assert (Hm : is_word m) by apply wrap_range.
  assert (Hzm : Z.land z m = 0) by apply align_up_mask_free.
  assert (Hsum : z + m = Z.lor z m).
  { pose proof (Z.add_lor_land z m) as E. rewrite Hzm in E. lia. }
  assert (Hw : wadd z m = Z.lor z m).
  { unfold wadd. rewrite Hsum, wrap_land, Z.land_lor_distr_l, <- !wrap_land.
    now rewrite !wrap_small. }
  rewrite align_up_unfold. fold m. rewrite Hw.
  rewrite Z.land_lor_distr_l, Z.land_lnot_diag, Z.lor_0_r.
  unfold z at 1. rewrite align_up_unfold. fold m.
  rewrite <- Z.land_assoc, Z.land_diag.
  unfold z. now rewrite align_up_unfold.
Qed.

(** ** One call on a steady arena, in full *)

(** ... and by less than one step. *)
Lemma align_up_tight (k x L : Z) :
  0 <= k -> 0 < x <= L -> L < modulus -> (2 ^ k | L) ->
  align_up x (2 ^ k) < x + 2 ^ k.
Proof.
  intros Hk Hx HL [q Hq].
  assert (Hp : 0 < 2 ^ k) by (apply Z.pow_pos_nonneg; lia).
  assert (Hq1 : 1 <= q) by nia.
  assert (Hk64 : k < width).
  { destruct (Z.lt_ge_cases k width) as [|Hge]; [assumption|].
    apply (Z.pow_le_mono_r 2) in Hge; [|lia]. fold modulus in Hge. nia. }
  assert (Hmod : modulus = 2 ^ k * 2 ^ (width - k)).
  { unfold modulus. rewrite <- Z.pow_add_r by lia. f_equal. lia. }
  assert (Hfit : L + 2 ^ k <= modulus).
  { assert (0 < 2 ^ (width - k)) by (apply Z.pow_pos_nonneg; lia).
    assert (q < 2 ^ (width - k)) by nia. nia. }
  pose proof (align_up_bounds x (2 ^ k)) as B. lia.
Qed.

(** Everything one call does to a steady arena and to the OS: the arena
    stays steady, [commit] does not move back and stays within one step of
    the cursor if it was, and the OS sees at most one call, a commit that
    starts at the old [commit] and ends within [limit]; when the OS grants
    it, [commit] advances by exactly its size. *)
Lemma arena_alloc_step os k a size log :
  steady k a ->
  cursor a + align_up size ARENA_ALIGNMENT < modulus ->
  let r := arena_alloc os a size log in
  let a1 := snd (fst r) in
  steady k a1 /\ commit a <= commit a1 /\ cursor a <= cursor a1 /\
  (commit a - cursor a < 2 ^ k -> commit a1 - cursor a1 < 2 ^ k) /\
  exists cs, snd r = log ++ cs /\
    Forall (commit_in (base a) (limit a)) cs /\
    ((forall l p n, commit_result os l p n = true) ->
     committed_bytes cs = commit a1 - commit a).
Proof.
  intros St Hfit. cbv zeta.
  split; [now apply arena_alloc_steady|].
  destruct St as (Hk & Hs & [Hb Hlim] & (Ho1 & Ho2 & Ho3) & Hdc & Hdl).
  pose proof (align_up_word size ARENA_ALIGNMENT) as W. unfold is_word in W.
  assert (Hcand : candidate a size = cursor a + align_up size ARENA_ALIGNMENT)
    by (unfold candidate; apply wadd_small; unfold is_word; lia).
  assert (Hp : 0 < 2 ^ k) by (apply Z.pow_pos_nonneg; lia).
  assert (Hgrow : commit a < candidate a size -> candidate a size <= limit a ->
    let need := commit_need a (candidate a size) in
    candidate a size - commit a <= need < candidate a size - commit a + 2 ^ k
    /\ commit a + need <= limit a
    /\ wadd (commit a) need = commit a + need).
  { intros Hc Hl. cbv zeta.
    set (x := wsub (candidate a size) (commit a)).
    assert (Hx : x = candidate a size - commit a)
      by (apply wsub_small; unfold is_word; lia).
    assert (Hdiv : (2 ^ k | limit a - commit a)).
    { replace (limit a - commit a)
        with ((limit a - base a) - (commit a - base a)) by lia.
      now apply Z.divide_sub_r. }
    destruct (align_up_within k x (limit a - commit a)) as [Hneed Hmul];
      try lia; try assumption.
    pose proof (align_up_tight k x (limit a - commit a) Hk
                  ltac:(lia) ltac:(lia) Hdiv) as B.
    unfold commit_need. fold x. rewrite Hs.
    split; [lia|]. split; [lia|].
    apply wadd_small. unfold is_word. lia. }
  alloc_cases os a size log; simpl.
  - split; [lia|]. split; [lia|]. split; [tauto|].
    exists []. rewrite app_nil_r. split; [reflexivity|].
    split; [constructor|]. intros _. simpl. lia.
  - destruct (Hgrow Hcommit Hlimit) as (Hn & Hle & Hw). rewrite Hw.
    split; [lia|]. split; [lia|]. split; [lia|].
    exists [Commit (commit a) (commit_need a (candidate a size))].
    split; [reflexivity|]. split.
    + constructor; [simpl; lia | constructor].
    + intros _. simpl. lia.
  - destruct (Hgrow Hcommit Hlimit) as (Hn & Hle & Hw).
    split; [lia|]. split; [lia|]. split; [tauto|].
    exists [Commit (commit a) (commit_need a (candidate a size))].
    split; [reflexivity|]. split.
    + constructor; [simpl; lia | constructor].
    + intros Hos. rewrite Hos in Hok. discriminate.
  - split; [lia|]. split; [lia|]. split; [lia|].
    exists []. rewrite app_nil_r. split; [reflexivity|].
    split; [constructor|]. intros _. simpl. lia.
Qed.

(** ** Any client run *)

Lemma run_ops_alloc os s rest a log :
  run_ops os (Alloc s :: rest) a log =
    run_ops os rest (snd (fst (arena_alloc os a s log)))
                    (snd (arena_alloc os a s log)).
Proof.
  simpl. unfold bind.
  destruct (arena_alloc os a s log) as [[p a1] log1]. reflexivity.
Qed.

Lemma align_up_8_multiple (x : Z) : (8 | align_up x ARENA_ALIGNMENT).
Proof.
  rewrite align_up_unfold.
  replace (wsub ARENA_ALIGNMENT 1) with (Z.ones 3) by reflexivity.
  rewrite <- Z.ldiff_land, Z.ldiff_ones_r by lia.
  rewrite Z.shiftl_mul_pow2 by lia. exists (Z.shiftr (wadd x (Z.ones 3)) 3).
  reflexivity.
Qed.

Lemma wrap_divide_8 (z b : Z) : (8 | z - b) -> (8 | wrap z - b).
Proof.
  intros [q Hq]. unfold wrap. rewrite Z.mod_eq by (rewrite modulus_eq; lia).
  exists (q - 2305843009213693952 * (z / modulus)).
  rewrite modulus_eq. lia.
Qed.

(** X3.  The cursor stays 8-byte aligned relative to [base] through every
    run of [arena_alloc] and [arena_reset] calls, whatever the sizes, the
    answers of the OS and the state of the arena (wrap-around included);
    [base] itself is never written. *)
Theorem run_ops_cursor_aligned (os : OS) (ops : list arena_op) :
  forall (a : Arena) (log : list os_call),
  (8 | cursor a - base a) ->
  let a' := fst (run_ops os ops a log) in
  (8 | cursor a' - base a') /\ base a' = base a.
Proof.
  induction ops as [| op rest IH]; intros a log Hal; cbv zeta.
  - simpl. split; [exact Hal | reflexivity].
  - destruct op as [s |].
    + rewrite run_ops_alloc.
      destruct (arena_alloc_frame os a s log) as (Fb & _).
      assert (Hal1 : (8 | cursor (snd (fst (arena_alloc os a s log)))
                        - base (snd (fst (arena_alloc os a s log))))).
      { rewrite Fb.
        assert (Hc : (8 | candidate a s - base a)).
        { unfold candidate, wadd. apply wrap_divide_8.
          replace (cursor a + align_up s ARENA_ALIGNMENT - base a)
            with ((cursor a - base a) + align_up s ARENA_ALIGNMENT) by lia.
          apply Z.divide_add_r; [exact Hal | apply align_up_8_multiple]. }
        alloc_cases os a s log; simpl; assumption. }
      destruct (IH _ (snd (arena_alloc os a s log)) Hal1) as [I1 I2].
      split; [exact I1 | congruence].
    + simpl run_ops.
      assert (Hr : (8 | cursor (arena_reset a) - base (arena_reset a))).
      { simpl. replace (base a - base a) with 0 by lia. apply Z.divide_0_r. }
      destruct (IH (arena_reset a) log Hr) as [I1 I2].
      split; [exact I1 | exact I2].
Qed.

Lemma run_ops_cursor_aligned_witness :
  let a := snd (fst (arena_init os4k arena0 MiB KiB64 [])) in
  let a' := fst (run_ops os4k [Alloc 13; Alloc SIZE_MAX; Reset; Alloc 1] a []) in
  (8 | cursor a' - base a') /\ base a' = base a.
Proof.
  apply (run_ops_cursor_aligned os4k [Alloc 13; Alloc SIZE_MAX; Reset; Alloc 1]
           (snd (fst (arena_init os4k arena0 MiB KiB64 []))) []).
  exists 0. reflexivity.
Defined.

(** What a run does to a steady arena whose requests cannot wrap. *)
Lemma run_ops_steady_run os k (ops : list arena_op) :
  forall (a : Arena) (log : list os_call),
  steady k a -> Forall (op_fits (limit a)) ops ->
  let r := run_ops os ops a log in
  let a' := fst r in
  steady k a' /\
  (base a' = base a /\ limit a' = limit a /\
   reserve_size a' = reserve_size a /\ commit_step a' = commit_step a) /\
  commit a <= commit a' /\
  exists cs, snd r = log ++ cs /\
    Forall (commit_in (base a) (limit a)) cs /\
    ((forall l p n, commit_result os l p n = true) ->
     committed_bytes cs = commit a' - commit a).
Proof.
  induction ops as [| op rest IH]; intros a log St Hfit; cbv zeta.
  - simpl. split; [exact St|]. split; [tauto|]. split; [lia|].
    exists []. rewrite app_nil_r. split; [reflexivity|].
    split; [constructor|]. intros _. simpl. lia.
  - inversion Hfit as [| ? ? Hop Hrest]; subst.
    destruct op as [s |].
    + rewrite run_ops_alloc.
      assert (Hcur : cursor a + align_up s ARENA_ALIGNMENT < modulus).
      { destruct St as (_ & _ & _ & (_ & Ho2 & Ho3) & _).
        simpl in Hop. lia. }
      destruct (arena_alloc_step os k a s log St Hcur)
        as (St1 & Hc1 & _ & _ & cs1 & Hlog1 & Hin1 & Hacc1).
      destruct (arena_alloc_frame os a s log) as (Fb & Fl & Fr & Fs).
      set (a1 := snd (fst (arena_alloc os a s log))) in *.
      rewrite <- Fl in Hrest.
      destruct (IH a1 (snd (arena_alloc os a s log)) St1 Hrest)
        as (St2 & (Gb & Gl & Gr & Gs) & Hc2 & cs2 & Hlog2 & Hin2 & Hacc2).
      split; [exact St2|].
      split; [repeat split; congruence|].
      split; [lia|].
      exists (cs1 ++ cs2). split; [rewrite Hlog2, Hlog1, app_assoc; reflexivity|].
      split.
      * apply Forall_app. split; [exact Hin1|]. rewrite <- Fb, <- Fl. exact Hin2.
      * intros Hos. rewrite committed_bytes_app, Hacc1, Hacc2 by exact Hos. lia.
    + simpl run_ops.
      destruct (IH (arena_reset a) log (arena_reset_steady k a St) Hrest)
        as (St2 & (Gb & Gl & Gr & Gs) & Hc2 & cs2 & Hlog2 & Hin2 & Hacc2).
      split; [exact St2|]. split; [tauto|]. split; [exact Hc2|].
      exists cs2. split; [exact Hlog2|]. split; [exact Hin2 | exact Hacc2].
Qed.

Lemma os4k_arena_steady :
  steady 16 (snd (fst (arena_init os4k arena0 MiB KiB64 []))).
Proof.
  apply (arena_init_steady os4k arena0 MiB KiB64 [] 16).
  - reflexivity.
  - lia.
  - reflexivity.
  - exists 16. reflexivity.
  - vm_compute. reflexivity.
Qed.

(** X4.  On an arena whose commit step is a power of two dividing both the
    committed and the reserved extent, every run of [arena_alloc] and
    [arena_reset] calls whose requests cannot wrap keeps
    [base <= cursor <= commit <= limit] and keeps [commit - base] a multiple
    of [commit_step]; [commit] never moves back, and [base], [limit],
    [reserve_size] and [commit_step] are never written. *)
Theorem run_ops_invariant (os : OS) (k : Z) (ops : list arena_op)
    (a : Arena) (log : list os_call) :
  steady k a -> Forall (op_fits (limit a)) ops ->
  let a' := fst (run_ops os ops a log) in
  ordered a' /\ (commit_step a' | commit a' - base a') /\
  commit a <= commit a' /\
  base a' = base a /\ limit a' = limit a /\
  reserve_size a' = reserve_size a /\ commit_step a' = commit_step a.
Proof.
  intros St Hfit. cbv zeta.
  destruct (run_ops_steady_run os k ops a log St Hfit)
    as ((_ & Hs & _ & Ho & Hd & _) & (Gb & Gl & Gr & Gs) & Hc & _).
  split; [exact Ho|]. split; [rewrite Hs; exact Hd|].
  split; [exact Hc|]. tauto.
Qed.

Lemma run_ops_invariant_witness :
  let a := snd (fst (arena_init os4k arena0 MiB KiB64 [])) in
  let a' := fst (run_ops os4k [Alloc 100000; Reset; Alloc 7; Alloc MiB] a []) in
  ordered a' /\ (commit_step a' | commit a' - base a') /\
  commit a <= commit a' /\
  base a' = base a /\ limit a' = limit a /\
  reserve_size a' = reserve_size a /\ commit_step a' = commit_step a.
Proof.
  apply (run_ops_invariant os4k 16 [Alloc 100000; Reset; Alloc 7; Alloc MiB]
           (snd (fst (arena_init os4k arena0 MiB KiB64 []))) []).
  - exact os4k_arena_steady.
  - repeat constructor; vm_compute; reflexivity.
Defined.

(** X5.  On such an arena the only OS calls a run of [arena_alloc] and
    [arena_reset] calls makes are [os_commit] calls, and each of them lies
    inside [[base, limit)]: neither guard page is ever committed. *)
Theorem run_ops_commits_inside (os : OS) (k : Z) (ops : list arena_op)
    (a : Arena) (log : list os_call) :
  steady k a -> Forall (op_fits (limit a)) ops ->
  exists cs, snd (run_ops os ops a log) = log ++ cs /\
             Forall (commit_in (base a) (limit a)) cs.
Proof.
  intros St Hfit.
  destruct (run_ops_steady_run os k ops a log St Hfit)
    as (_ & _ & _ & cs & Hlog & Hin & _).
  exists cs. split; assumption.
Qed.

Lemma run_ops_commits_inside_witness :
  let a := snd (fst (arena_init os4k arena0 MiB KiB64 [])) in
  exists cs,
    snd (run_ops os4k [Alloc 100000; Reset; Alloc 7; Alloc MiB] a []) = [] ++ cs /\
    Forall (commit_in (base a) (limit a)) cs.
Proof.
  apply (run_ops_commits_inside os4k 16
           [Alloc 100000; Reset; Alloc 7; Alloc MiB]
           (snd (fst (arena_init os4k arena0 MiB KiB64 []))) []).
  - exact os4k_arena_steady.
  - repeat constructor; vm_compute; reflexivity.
Defined.



(** ** Runs of allocations: commit high-water mark, capacity, replay *)

Lemma alloc_all_steady os k (sizes : list Z) :
  forall (a : Arena) (log : list os_call),
  steady k a -> cursor a + sum_aligned sizes < modulus ->
  let a' := snd (fst (alloc_all os sizes a log)) in
  steady k a' /\
  (commit a - cursor a < 2 ^ k -> commit a' - cursor a' < 2 ^ k).
Proof.
  induction sizes as [| s rest IH]; intros a log St Hfit; cbv zeta.
  - simpl. split; [exact St | tauto].
  - rewrite alloc_all_cons. cbv zeta. cbn [fst snd]. simpl in Hfit.
    pose proof (sum_aligned_nonneg rest) as Hsum.
    pose proof (align_up_word s ARENA_ALIGNMENT) as W. unfold is_word in W.
    destruct (arena_alloc_step os k a s log St ltac:(lia))
      as (St1 & _ & _ & Ht1 & _).
    assert (Hub : cursor (snd (fst (arena_alloc os a s log)))
                  <= cursor a + align_up s ARENA_ALIGNMENT).
    { assert (Hcand : candidate a s = cursor a + align_up s ARENA_ALIGNMENT)
        by (unfold candidate; apply wadd_small; unfold is_word;
            destruct St as (_ & _ & [? ?] & (? & ? & ?) & _); lia).
      alloc_cases os a s log; simpl; lia. }
    destruct (IH (snd (fst (arena_alloc os a s log)))
                 (snd (arena_alloc os a s log)) St1 ltac:(lia)) as (St2 & Ht2).
    split; [exact St2 | tauto].
Qed.

(** X7.  From [arena_init] on, and as long as no [arena_reset] intervenes,
    [commit] is the least step boundary at or above the cursor: a run of
    [arena_alloc] calls never commits a whole step or more beyond what the
    cursor needs. *)
Theorem alloc_all_commit_tight (os : OS) (k : Z) (sizes : list Z)
    (a : Arena) (log : list os_call) :
  steady k a -> commit a - cursor a < commit_step a ->
  cursor a + sum_aligned sizes < modulus ->
  let a' := snd (fst (alloc_all os sizes a log)) in
  cursor a' <= commit a' < cursor a' + commit_step a' /\
  (commit_step a' | commit a' - base a').
Proof.
  intros St Ht Hfit. cbv zeta.
  assert (Hs : commit_step a = 2 ^ k) by (destruct St as (_ & Hs & _); exact Hs).
  rewrite Hs in Ht.
  destruct (alloc_all_steady os k sizes a log St Hfit) as (St' & Ht').
  specialize (Ht' Ht).
  destruct St' as (_ & Hs' & _ & (_ & Ho2 & _) & Hd & _).
  rewrite Hs'. split; [lia | exact Hd].
Qed.

Lemma alloc_all_commit_tight_witness :
  let a := snd (fst (arena_init os4k arena0 MiB KiB64 [])) in
  let a' := snd (fst (alloc_all os4k [100000; 7; 70000] a [])) in
  cursor a' <= commit a' < cursor a' + commit_step a' /\
  (commit_step a' | commit a' - base a').
Proof.
  apply (alloc_all_commit_tight os4k 16 [100000; 7; 70000]
           (snd (fst (arena_init os4k arena0 MiB KiB64 []))) []).
  - exact os4k_arena_steady.
  - vm_compute; reflexivity.
  - vm_compute; reflexivity.
Defined.

(** A run that stays within the committed and the reserved range is a pure
    bump of the cursor. *)
Lemma alloc_all_within os (sizes : list Z) :
  forall (a : Arena) (log : list os_call),
  0 <= cursor a ->
  cursor a + sum_aligned sizes <= commit a ->
  cursor a + sum_aligned sizes <= limit a ->
  cursor a + sum_aligned sizes < modulus ->
  alloc_all os sizes a log =
    (map Some (bump_addrs (cursor a) sizes),
     set_cursor a (cursor a + sum_aligned sizes), log).
Proof.
  induction sizes as [| s rest IH]; intros a log H0 Hc Hl Hm.
  - simpl. unfold ret. rewrite Z.add_0_r, set_cursor_same. reflexivity.
  - rewrite alloc_all_cons. cbv zeta. simpl in Hc, Hl, Hm.
    pose proof (sum_aligned_nonneg rest) as Hsum.
    pose proof (align_up_word s ARENA_ALIGNMENT) as W. unfold is_word in W.
    assert (Hcand : candidate a s = cursor a + align_up s ARENA_ALIGNMENT)
      by (unfold candidate; apply wadd_small; unfold is_word; lia).
    rewrite arena_alloc_committed by lia. cbn [fst snd].
    rewrite IH by (simpl; lia). cbn [fst snd map bump_addrs sum_aligned].
    rewrite Hcand. simpl cursor.
    f_equal. f_equal. unfold set_cursor. simpl. f_equal. lia.
Qed.

(** X8.  Replay after a reset.  If a run of [arena_alloc] calls that starts
    at [cursor = base] succeeds throughout, then after [arena_reset] the same
    sizes are served again at the same addresses, without a single OS call,
    and the arena ends in the same state. *)
Theorem arena_reset_replays (os : OS) (k : Z) (sizes : list Z)
    (a : Arena) (log log2 : list os_call) :
  steady k a -> cursor a = base a ->
  base a + sum_aligned sizes < modulus ->
  let r := alloc_all os sizes a log in
  all_succeed (fst (fst r)) ->
  alloc_all os sizes (arena_reset (snd (fst r))) log2 =
    (fst (fst r), snd (fst r), log2).
Proof.
  intros St Hstart Hfit. cbv zeta. intros Hok.
  assert (Hb : 0 <= base a) by (destruct St as (_ & _ & [? _] & _); assumption).
  destruct (alloc_all_bump os sizes a log) as (B1 & B2 & B3);
    [lia | lia | exact Hok |].
  destruct (alloc_all_steady os k sizes a log St ltac:(lia))
    as ((_ & _ & _ & (_ & Ho2 & Ho3) & _) & _).
  set (a1 := snd (fst (alloc_all os sizes a log))) in *.
  rewrite alloc_all_within.
  - rewrite B3. simpl cursor. rewrite B1, Hstart.
    f_equal. f_equal. destruct a1 as [b c cm l rs st]. simpl in *.
    unfold set_cursor, arena_reset. simpl. f_equal. lia.
  - simpl. lia.
  - simpl. lia.
  - simpl. lia.
  - simpl. lia.
Qed.

Lemma arena_reset_replays_witness :
  let a := snd (fst (arena_init os4k arena0 MiB KiB64 [])) in
  let r := alloc_all os4k [100000; 7; 70000] a [] in
  alloc_all os4k [100000; 7; 70000] (arena_reset (snd (fst r))) [] =
    (fst (fst r), snd (fst r), []).
Proof.
  apply (arena_reset_replays os4k 16 [100000; 7; 70000]
           (snd (fst (arena_init os4k arena0 MiB KiB64 []))) [] []).
  - exact os4k_arena_steady.
  - reflexivity.
  - vm_compute; reflexivity.
  - vm_compute; repeat constructor; discriminate.
Defined.

(** ** With an OS that grants every commit: capacity and the benchmark *)

Lemma bench_loop_succ os n i sink a log :
  bench_loop os (S n) i sink a log =
    let r := arena_alloc os a BENCH_ALLOC_SIZE log in
    if is_null (fst (fst r)) then (Some i, fst (fst r), snd (fst r), snd r)
    else bench_loop os n (i + 1) (fst (fst r)) (snd (fst r)) (snd r).
Proof.
  simpl. unfold bind.
  destruct (arena_alloc os a BENCH_ALLOC_SIZE log) as [[p a1] log1]. simpl.
  destruct (is_null p); reflexivity.
Qed.

Lemma arena_destroy_unfold os a log :
  arena_destroy os a log =
    (tt, log ++ [PageSize; PageSize;
                 Release (wsub (base a) (os_page os))
                         (wadd (reserve_size a) (wmul (os_page os) 2))]).
Proof.
  unfold arena_destroy, bind, os_page_size, os_release, ret. simpl.
  rewrite <- !app_assoc. reflexivity.
Qed.

Section Granted.

Variable os : OS.
Hypothesis granted : forall l addr n, commit_result os l addr n = true.

(** X9.  Capacity.  When the OS grants every commit, a run of
    [arena_alloc] calls on a steady arena succeeds throughout exactly when
    the aligned sizes fit between the cursor and [limit]: the arena serves
    every byte of its reservation and not one more. *)
Theorem alloc_all_capacity (k : Z) (sizes : list Z) :
  forall (a : Arena) (log : list os_call),
  steady k a -> cursor a + sum_aligned sizes < modulus ->
  (all_succeed (fst (fst (alloc_all os sizes a log))) <->
   cursor a + sum_aligned sizes <= limit a).
Proof.
  induction sizes as [| s rest IH]; intros a log St Hfit.
  - simpl. split; [| constructor].
    intros _. destruct St as (_ & _ & _ & (_ & ? & ?) & _). lia.
  - rewrite alloc_all_cons. cbv zeta. cbn [fst snd]. simpl in Hfit.
    simpl sum_aligned.
    pose proof (sum_aligned_nonneg rest) as Hsum.
    pose proof (align_up_word s ARENA_ALIGNMENT) as W. unfold is_word in W.
    assert (H0 : 0 <= cursor a)
      by (destruct St as (_ & _ & [? _] & (? & _) & _); lia).
    assert (Hcand : candidate a s = cursor a + align_up s ARENA_ALIGNMENT)
      by (unfold candidate; apply wadd_small; unfold is_word; lia).
    destruct (arena_alloc_step os k a s log St ltac:(lia)) as (St1 & _).
    destruct (arena_alloc_frame os a s log) as (_ & Fl & _).
    split.
    + intros Hok. inversion Hok as [| r rs Hr Hrs]; subst.
      destruct (fst (fst (arena_alloc os a s log))) as [p |] eqn:E;
        [| congruence].
      destruct (arena_alloc_some os a s log p E) as [_ Hnext].
      apply IH in Hrs; [| exact St1 | rewrite Hnext, Hcand; lia].
      rewrite Hnext, Hcand, Fl in Hrs. lia.
    + intros Hle.
      destruct (arena_alloc_granted os granted a s log) as [Hres Hnext];
        [lia|].
      constructor; [rewrite Hres; discriminate|].
      apply IH; [exact St1 | rewrite Hnext, Hcand; lia |].
      rewrite Hnext, Hcand, Fl. lia.
Qed.

(** The loop of [bench_arena] on a steady arena, [q] being the number of
    64-byte blocks that still fit. *)
Lemma bench_loop_run (k : Z) (n : nat) :
  forall i sink a log q,
  steady k a -> 0 < base a -> limit a + 64 < modulus ->
  64 * q <= limit a - cursor a < 64 * (q + 1) ->
  let r := bench_loop os n i sink a log in
  let a' := snd (fst r) in
  (steady k a' /\ base a' = base a /\ limit a' = limit a /\
   reserve_size a' = reserve_size a) /\
  (Z.of_nat n <= q ->
     fst (fst (fst r)) = None /\ cursor a' = cursor a + 64 * Z.of_nat n /\
     snd (fst (fst r)) =
       match n with
       | O => sink
       | S _ => Some (cursor a + 64 * (Z.of_nat n - 1))
       end) /\
  (q < Z.of_nat n ->
     fst (fst (fst r)) = Some (i + q) /\ snd (fst (fst r)) = None /\
     cursor a' = cursor a + 64 * q) /\
  (commit a - cursor a < 2 ^ k -> commit a' - cursor a' < 2 ^ k) /\
  exists cs, snd r = log ++ cs /\
    Forall (commit_in (base a) (limit a)) cs /\
    committed_bytes cs = commit a' - commit a.
Proof.
  induction n as [| n IH]; intros i sink a log q St Hb Htop Hq; cbv zeta.
  - cbn [bench_loop ret fst snd].
    split; [tauto|]. split; [intros _; repeat split; simpl; lia|].
    split; [intros F; simpl in F; destruct St as (_ & _ & _ & (? & ? & ?) & _); lia|].
    split; [tauto|].
    exists []. rewrite app_nil_r. split; [reflexivity|].
    split; [constructor | simpl; lia].
  - rewrite bench_loop_succ. cbv zeta.
    assert (H64 : align_up BENCH_ALLOC_SIZE ARENA_ALIGNMENT = 64)
      by reflexivity.
    assert (Hord : 0 <= base a /\ base a <= cursor a /\ cursor a <= limit a)
      by (destruct St as (_ & _ & [? _] & (? & ? & ?) & _); lia).
    assert (Hcand : candidate a BENCH_ALLOC_SIZE = cursor a + 64).
    { unfold candidate. rewrite H64. apply wadd_small. unfold is_word. lia. }
    destruct (Z.lt_ge_cases q 1) as [Hfull | Hroom].
    + (* no block fits: out of space, the loop breaks *)
      assert (q = 0) by lia. subst q.
      rewrite arena_alloc_out_of_space by lia. cbn [fst snd is_null].
      split; [tauto|]. split; [intros F; lia|].
      split; [intros _; split; [f_equal; lia|]; split; [reflexivity | lia]|].
      split; [tauto|].
      exists []. rewrite app_nil_r. split; [reflexivity|].
      split; [constructor | simpl; lia].
    + destruct (arena_alloc_granted os granted a BENCH_ALLOC_SIZE log)
        as [Hres Hnext]; [lia|].
      destruct (arena_alloc_step os k a BENCH_ALLOC_SIZE log St
                  ltac:(rewrite H64; lia))
        as (St1 & _ & _ & Ht1 & cs1 & Hlog1 & Hin1 & Hacc1).
      destruct (arena_alloc_frame os a BENCH_ALLOC_SIZE log)
        as (Fb & Fl & Fr & _).
      rewrite Hres. cbn [is_null].
      assert (Hnz : (cursor a =? 0) = false) by (apply Z.eqb_neq; lia).
      rewrite Hnz.
      set (a1 := snd (fst (arena_alloc os a BENCH_ALLOC_SIZE log))) in *.
      rewrite Hcand in Hnext.
      assert (Hb1 : 0 < base a1) by (rewrite Fb; lia).
      assert (Htop1 : limit a1 + 64 < modulus) by (rewrite Fl; lia).
      assert (Hq1 : 64 * (q - 1) <= limit a1 - cursor a1 < 64 * (q - 1 + 1))
        by (rewrite Fl, Hnext; lia).
      destruct (IH (i + 1) (Some (cursor a)) a1
                  (snd (arena_alloc os a BENCH_ALLOC_SIZE log)) (q - 1) St1
                  Hb1 Htop1 Hq1)
        as ((St2 & Gb & Gl & Gr) & Hfin & Hbrk & Ht2 & cs2 & Hlog2 & Hin2 & Hacc2).
      split; [split; [exact St2|]; split; [congruence|]; split; congruence|].
      split.
      * intros Hn. destruct (Hfin ltac:(lia)) as (F1 & F2 & F3).
        split; [exact F1|]. split; [lia|].
        rewrite F3. destruct n; [f_equal; lia | f_equal; lia].
      * split.
        -- intros Hn. destruct (Hbrk ltac:(lia)) as (F1 & F2 & F3).
           split; [rewrite F1; f_equal; lia|]. split; [exact F2 | lia].
        -- split; [tauto|].
           exists (cs1 ++ cs2).
           split; [rewrite Hlog2, Hlog1, app_assoc; reflexivity|].
           split.
           ++ apply Forall_app. split; [exact Hin1|].
              rewrite <- Fb, <- Fl. exact Hin2.
           ++ rewrite committed_bytes_app, (Hacc1 granted), Hacc2. lia.
Qed.

(** X10.  The benchmark loop breaks exactly when the arena is full.  On a
    steady arena with [m] 64-byte blocks of room left, [n <= m] iterations
    run to the end, and more than [m] break at iteration [i + m]: the loop
    prints that index, [arena_sink] holds NULL, and the [m] blocks before
    it were served. *)
Theorem bench_loop_breaks_when_full (k : Z) (n : nat) (i : Z)
    (sink : option Z) (a : Arena) (log : list os_call) :
  steady k a -> 0 < base a -> limit a + 64 < modulus ->
  let m := (limit a - cursor a) / 64 in
  let r := bench_loop os n i sink a log in
  (Z.of_nat n <= m ->
     fst (fst (fst r)) = None /\
     cursor (snd (fst r)) = cursor a + 64 * Z.of_nat n) /\
  (m < Z.of_nat n ->
     fst (fst (fst r)) = Some (i + m) /\ snd (fst (fst r)) = None /\
     cursor (snd (fst r)) = cursor a + 64 * m).
Proof.
  intros St Hb Htop. cbv zeta.
  pose proof (Z.mul_div_le (limit a - cursor a) 64 ltac:(lia)) as Hlo.
  pose proof (Z.mul_succ_div_gt (limit a - cursor a) 64 ltac:(lia)) as Hhi.
  destruct (bench_loop_run k n i sink a log ((limit a - cursor a) / 64)
              St Hb Htop ltac:(lia))
    as (_ & Hfin & Hbrk & _).
  split.
  - intros Hn. destruct (Hfin Hn) as (F1 & F2 & _). split; assumption.
  - exact Hbrk.
Qed.

End Granted.

Lemma alloc_all_capacity_witness :
  let a := snd (fst (arena_init os4k arena0 MiB KiB64 [])) in
  all_succeed (fst (fst (alloc_all os4k [MiB - 64; 57; 8] a []))) <->
  cursor a + sum_aligned [MiB - 64; 57; 8] <= limit a.
Proof.
  apply (alloc_all_capacity os4k (fun _ _ _ => eq_refl) 16 [MiB - 64; 57; 8]
           (snd (fst (arena_init os4k arena0 MiB KiB64 []))) []).
  - exact os4k_arena_steady.
  - vm_compute; reflexivity.
Defined.

Lemma bench_loop_breaks_when_full_witness :
  let a := snd (fst (arena_init os4k arena0 4096 4096 [])) in
  let m := (limit a - cursor a) / 64 in
  let r := bench_loop os4k 100%nat 0 None a [] in
  m = 64 /\
  (Z.of_nat 100 <= m ->
     fst (fst (fst r)) = None /\
     cursor (snd (fst r)) = cursor a + 64 * Z.of_nat 100) /\
  (m < Z.of_nat 100 ->
     fst (fst (fst r)) = Some (0 + m) /\ snd (fst (fst r)) = None /\
     cursor (snd (fst r)) = cursor a + 64 * m).
Proof.
  cbv zeta. split; [reflexivity|].
  apply (bench_loop_breaks_when_full os4k (fun _ _ _ => eq_refl) 12 100%nat 0
           None (snd (fst (arena_init os4k arena0 4096 4096 []))) []).
  - apply (arena_init_steady os4k arena0 4096 4096 [] 12).
    + reflexivity.
    + lia.
    + reflexivity.
    + exists 1. reflexivity.
    + vm_compute. reflexivity.
  - vm_compute; reflexivity.
  - vm_compute; reflexivity.
Defined.

(** ** [arena_init] and [arena_destroy]: the reservation *)

(** X12.  Layout of the reservation.  When [os_reserve] returns a range
    that lies inside the address space, [arena_init] splits it, without gap
    or overlap, into the leading guard page [[mem, base)], the usable range
    [[base, limit)] of [reserve_size] bytes, and the trailing guard page
    [[limit, mem + total)]; the two [os_guard] calls cover exactly the two
    guard pages. *)
Theorem arena_init_layout (os : OS) (a : Arena) (R C : Z)
    (log : list os_call) :
  let page := os_page os in
  let rs := align_up R page in
  let total := wadd rs (wmul page 2) in
  let mem := reserve_result os (log ++ [PageSize]) total in
  let r := arena_init os a R C log in
  let a' := snd (fst r) in
  0 < mem -> 0 < page -> mem + (rs + 2 * page) <= modulus ->
  fst (fst r) = true /\
  total = rs + 2 * page /\
  base a' = mem + page /\
  limit a' = base a' + reserve_size a' /\
  limit a' + page = mem + total /\
  ordered a' /\
  snd r = log ++ [PageSize; Reserve total; Guard mem page;
                  Guard (limit a') page].
Proof.
  cbv zeta. intros Hmem Hpage Hfit.
  pose proof (align_up_word R (os_page os)) as Hr. unfold is_word in Hr.
  assert (Hm2 : wmul (os_page os) 2 = 2 * os_page os).
  { unfold wmul. rewrite wrap_small; [lia|]. unfold is_word. lia. }
  assert (Htot : wadd (align_up R (os_page os)) (wmul (os_page os) 2)
                 = align_up R (os_page os) + 2 * os_page os).
  { rewrite Hm2. apply wadd_small. unfold is_word. lia. }
  rewrite arena_init_unfold. cbv zeta.
  set (mem := reserve_result os (log ++ [PageSize])
                (wadd (align_up R (os_page os)) (wmul (os_page os) 2))) in *.
  assert (Hne : (mem =? 0) = false) by (apply Z.eqb_neq; lia).
  rewrite Hne. cbn [fst snd base limit reserve_size cursor commit].
  assert (Hb : wadd mem (os_page os) = mem + os_page os)
    by (apply wadd_small; unfold is_word; lia).
  rewrite Hb.
  assert (Hl : wadd (mem + os_page os) (align_up R (os_page os))
               = mem + os_page os + align_up R (os_page os))
    by (apply wadd_small; unfold is_word; lia).
  rewrite Hl, Htot.
  split; [reflexivity|]. split; [reflexivity|]. split; [reflexivity|].
  split; [reflexivity|]. split; [lia|].
  split; [unfold ordered; simpl; lia | reflexivity].
Qed.

Lemma arena_init_layout_witness :
  let r := arena_init os4k arena0 100000 KiB64 [] in
  let a' := snd (fst r) in
  fst (fst r) = true /\
  wadd (align_up 100000 4096) (wmul 4096 2) = align_up 100000 4096 + 2 * 4096 /\
  base a' = 1048576 + 4096 /\
  limit a' = base a' + reserve_size a' /\
  limit a' + 4096 = 1048576 + wadd (align_up 100000 4096) (wmul 4096 2) /\
  ordered a' /\
  snd r = [] ++ [PageSize; Reserve (wadd (align_up 100000 4096) (wmul 4096 2));
                 Guard 1048576 4096; Guard (limit a') 4096].
Proof.
  apply (arena_init_layout os4k arena0 100000 KiB64 []).
  - reflexivity.
  - reflexivity.
  - vm_compute; discriminate.
Defined.

Lemma arena_destroy_releases_witness :
  let a' := snd (fst (arena_init os4k arena0 MiB KiB64 [])) in
  arena_destroy os4k a' [] =
    (tt, [] ++ [PageSize; PageSize;
                Release 1048576 (wadd (align_up MiB 4096) (wmul 4096 2))]).
Proof.
  apply (arena_destroy_releases os4k arena0 MiB KiB64 [] []).
  - unfold is_word; vm_compute; split; [discriminate | reflexivity].
  - vm_compute; discriminate.
Defined.

(** ** [bench_arena] end to end *)

(** X11.  With a page size dividing 64 KiB, a reservation inside the
    address space and an OS that grants every commit, [bench_arena] never
    reports a failure: after [arena_init] its ten million 64-byte
    allocations all succeed, the only OS calls in between are commits inside
    the usable range, 640024576 bytes in all (9766 steps of 64 KiB for
    640000000 bytes served), and it ends by releasing exactly the range it
    reserved. *)
Theorem bench_arena_completes (os : OS) (a : Arena) (log : list os_call)
    (k : Z) :
  let page := os_page os in
  let total := wadd (align_up (1024 * 1024 * 1024) page) (wmul page 2) in
  let mem := reserve_result os (log ++ [PageSize]) total in
  (forall l p n, commit_result os l p n = true) ->
  0 <= k <= 16 -> page = 2 ^ k ->
  0 < mem -> mem + (1024 * 1024 * 1024 + 2 * page) + 64 < modulus ->
  exists cs,
    bench_arena os a log =
      (Finished None,
       (log ++ [PageSize; Reserve total; Guard mem page;
                Guard (mem + page + 1024 * 1024 * 1024) page])
       ++ cs ++ [PageSize; PageSize; Release mem total]) /\
    Forall (commit_in (mem + page) (mem + page + 1024 * 1024 * 1024)) cs /\
    committed_bytes cs = 640024576.
Proof.
  cbv zeta. intros Hos Hk Hpage Hmem Hfit.
  assert (Hp : 0 < 2 ^ k) by (apply Z.pow_pos_nonneg; lia).
  assert (Hp16 : 2 ^ k <= 2 ^ 16) by (apply Z.pow_le_mono_r; lia).
  change (2 ^ 16) with 65536 in Hp16.
  assert (Hrs : align_up (1024 * 1024 * 1024) (os_page os) = 1073741824).
  { rewrite Hpage. change (1024 * 1024 * 1024) with (2 ^ 30).
    rewrite align_up_page_multiple by lia. reflexivity. }
  assert (Hcs : align_up (64 * 1024) (os_page os) = 2 ^ 16).
  { rewrite Hpage. change (64 * 1024) with (2 ^ 16).
    now rewrite align_up_page_multiple by lia. }
  unfold bench_arena, bind. rewrite arena_init_unfold. cbv zeta.
  rewrite Hrs, Hcs. rewrite Hrs in Hmem, Hfit.
  set (total := wadd 1073741824 (wmul (os_page os) 2)) in *.
  set (mem := reserve_result os (log ++ [PageSize]) total) in *.
  change (1024 * 1024 * 1024) with 1073741824 in *.
  rewrite Hpage in Hfit.
  assert (Hne : (mem =? 0) = false) by (apply Z.eqb_neq; lia).
  rewrite Hne. cbn [fst snd negb].
  assert (Hb : wadd mem (os_page os) = mem + os_page os)
    by (rewrite Hpage; apply wadd_small; unfold is_word; lia).
  rewrite Hb.
  assert (Hl : wadd (mem + os_page os) 1073741824
               = mem + os_page os + 1073741824)
    by (rewrite Hpage; apply wadd_small; unfold is_word; lia).
  rewrite Hl.
  set (b := mem + os_page os) in *.
  set (a0 := mkArena b b b (b + 1073741824) 1073741824 (2 ^ 16)).
  set (log0 := log ++ [PageSize; Reserve total; Guard mem (os_page os);
                       Guard (b + 1073741824) (os_page os)]).
  assert (Hb0 : 0 < b /\ b + 1073741824 + 64 < modulus)
    by (unfold b; rewrite Hpage; lia).
  assert (St : steady 16 a0).
  { unfold steady, in_address_space, ordered, a0. simpl.
    split; [lia|]. split; [reflexivity|]. split; [lia|]. split; [lia|].
    split.
    - replace (b - b) with 0 by lia. apply Z.divide_0_r.
    - replace (b + 1073741824 - b) with 1073741824 by lia.
      exists 16384. reflexivity. }
  destruct (bench_loop_run os Hos 16 (Z.to_nat BENCH_ITERATIONS) 0 None a0
              log0 16777216 St)
    as ((St' & Gb & Gl & Gr) & Hfin & _ & Ht & cs & Hlog & Hin & Hacc).
  { simpl. lia. }
  { simpl. lia. }
  { simpl. lia. }
  assert (Hn : Z.of_nat (Z.to_nat BENCH_ITERATIONS) = 10000000)
    by (rewrite Z2Nat.id; unfold BENCH_ITERATIONS; lia).
  destruct (Hfin ltac:(lia)) as (F1 & F2 & _).
  specialize (Ht ltac:(simpl; lia)).
  destruct (bench_loop os (Z.to_nat BENCH_ITERATIONS) 0 None a0 log0)
    as [[[failed sink] a1] log1].
  cbn [fst snd] in *.
  exists cs. split; [| split].
  - rewrite arena_destroy_unfold. cbn [fst snd].
    subst failed. rewrite Hlog. f_equal.
    rewrite <- !app_assoc. do 2 f_equal.
    unfold arena_reset, set_cursor. cbn [base reserve_size].
    rewrite Gb, Gr. cbn [base reserve_size a0].
    assert (Hw : wsub b (os_page os) = mem)
      by (unfold b; rewrite wsub_small; unfold is_word; lia).
    rewrite Hw. reflexivity.
  - exact Hin.
  - rewrite Hacc. cbn [commit a0].
    destruct St' as (_ & _ & _ & (_ & Ho2 & _) & [z Hz] & _).
    rewrite Gb in Hz. cbn [base a0] in Hz.
    rewrite F2, Hn in Ho2, Ht. cbn [cursor a0] in Ho2, Ht.
    change (2 ^ 16) with 65536 in *. lia.
Qed.

Lemma bench_arena_completes_witness :
  exists cs,
    bench_arena os4k arena0 [] =
      (Finished None,
       ([] ++ [PageSize;
               Reserve (wadd (align_up (1024 * 1024 * 1024) 4096) (wmul 4096 2));
               Guard 1048576 4096;
               Guard (1048576 + 4096 + 1024 * 1024 * 1024) 4096])
       ++ cs ++ [PageSize; PageSize;
                 Release 1048576
                   (wadd (align_up (1024 * 1024 * 1024) 4096) (wmul 4096 2))]) /\
    Forall (commit_in (1048576 + 4096)
              (1048576 + 4096 + 1024 * 1024 * 1024)) cs /\
    committed_bytes cs = 640024576.
Proof.
  apply (bench_arena_completes os4k arena0 [] 12).
  - reflexivity.
  - lia.
  - reflexivity.
  - reflexivity.
  - vm_compute; reflexivity.
Defined.

(** * The statements with the null pointer and wrap-around made explicit *)

(** ** C3: when [arena_alloc] returns NULL *)

(** C3, amended.  On an arena whose cursor is not the null address,
    [arena_alloc] returns NULL exactly when the candidate
    [cursor + align_up(size, 8)] lies past [limit] (out of space), or it lies
    past [commit] and the [os_commit] call made for it fails.  Every call
    that returns NULL leaves the Arena exactly as it was, the out-of-space
    one without any OS call; every other call returns the old cursor and
    moves the cursor to the candidate. *)
Theorem arena_alloc_null_iff (os : OS) (a : Arena) (size : Z)
    (log : list os_call) :
  cursor a <> 0 ->
  let next := candidate a size in
  let r := arena_alloc os a size log in
  (is_null (fst (fst r)) = true <->
     limit a < next \/
     (next <= limit a /\ commit a < next /\
      commit_result os log (commit a) (commit_need a next) = false))
  /\ (is_null (fst (fst r)) = true -> snd (fst r) = a)
  /\ (is_null (fst (fst r)) = false ->
      fst (fst r) = Some (cursor a) /\ cursor (snd (fst r)) = next)
  /\ (limit a < next -> snd r = log)
  /\ (next <= limit a -> commit a < next ->
      snd r = log ++ [Commit (commit a) (commit_need a next)]).
Proof.
  intros Hnz. cbv zeta.
  assert (Hz : (cursor a =? 0) = false) by now apply Z.eqb_neq.
  split; [|split; [|split; [|split]]].
  - alloc_cases os a size log; cbn [fst snd is_null]; rewrite ?Hz; split;
      try discriminate; auto.
    + intros [F | (_ & _ & F)]; [lia | congruence].
    + intros [F | (_ & F & _)]; lia.
  - alloc_cases os a size log; cbn [fst snd is_null]; rewrite ?Hz;
      try discriminate; auto.
  - alloc_cases os a size log; cbn [fst snd is_null]; rewrite ?Hz;
      try discriminate; intros _; split; reflexivity.
  - intros H. now rewrite arena_alloc_out_of_space.
  - intros Hl Hc. rewrite arena_alloc_grow by assumption.
    destruct (commit_result _ _ _ _); reflexivity.
Qed.

Lemma arena_alloc_null_iff_witness :
  let r0 := arena_init os_no_commit arena0 MiB KiB64 [] in
  let a := snd (fst r0) in
  let next := candidate a 100 in
  let r := arena_alloc os_no_commit a 100 (snd r0) in
  next = base a + 104 /\ is_null (fst (fst r)) = true /\
  ((is_null (fst (fst r)) = true <->
     limit a < next \/
     (next <= limit a /\ commit a < next /\
      commit_result os_no_commit (snd r0) (commit a) (commit_need a next)
        = false))
  /\ (is_null (fst (fst r)) = true -> snd (fst r) = a)
  /\ (is_null (fst (fst r)) = false ->
      fst (fst r) = Some (cursor a) /\ cursor (snd (fst r)) = next)
  /\ (limit a < next -> snd r = snd r0)
  /\ (next <= limit a -> commit a < next ->
      snd r = snd r0 ++ [Commit (commit a) (commit_need a next)])).
Proof.
  cbv zeta. split; [reflexivity|]. split; [reflexivity|].
  apply (arena_alloc_null_iff os_no_commit
           (snd (fst (arena_init os_no_commit arena0 MiB KiB64 [])))
           100 (snd (arena_init os_no_commit arena0 MiB KiB64 []))).
  vm_compute. discriminate.
Defined.

(** Where C3 stops holding.  After [arena_init(1 MiB, 64 KiB)] the request
    [2^64 - base] is served and wraps the cursor to address 0.  The next
    [arena_alloc(8)] finds its candidate 8 within [limit] and within
    [commit], makes no OS call, and returns the old cursor: the null
    pointer, with the cursor moved from 0 to 8. *)
Lemma arena_alloc_null_served :
  let r0 := arena_init os4k arena0 MiB KiB64 [] in
  let r1 := arena_alloc os4k (snd (fst r0)) (modulus - 1052672) (snd r0) in
  let a := snd (fst r1) in
  let next := candidate a 8 in
  let r := arena_alloc os4k a 8 (snd r1) in
  fst (fst r0) = true /\ base (snd (fst r0)) = 1052672 /\
  fst (fst r1) = Some 1052672 /\ cursor a = 0 /\
  next = 8 /\ ~ limit a < next /\ ~ commit a < next /\
  fst (fst r) = Some 0 /\ is_null (fst (fst r)) = true /\
  snd r = snd r1 /\
  cursor (snd (fst r)) = 8 /\ snd (fst r) <> a.
Proof.
  cbv zeta.
  split; [reflexivity|]. split; [reflexivity|]. split; [reflexivity|].
  split; [reflexivity|]. split; [reflexivity|].
  split; [vm_compute; discriminate|]. split; [vm_compute; discriminate|].
  split; [reflexivity|]. split; [reflexivity|]. split; [reflexivity|].
  split; [reflexivity|].
  vm_compute. discriminate.
Qed.

(** ** C5: what [arena_init] records *)

(** C5, amended.  Let the page size be a power of two and let neither
    request wrap when a page less one byte is added to it.  Then
    [arena_init] rounds both requests up to the page size: the recorded
    [reserve_size] and [commit_step] are the least page multiples not below
    the requests.  When [os_reserve] answers NULL it returns 0 straight
    after that call and [*a] is not written.  When it answers a range that
    lies inside the address space, [arena_init] returns 1 with
    [cursor = commit = base], [base] one guard page into the range and
    [limit = base + reserve_size]; no [os_commit] call has been made, so no
    byte is committed. *)
Theorem arena_init_rounds (os : OS) (a : Arena) (R C k : Z)
    (log : list os_call) :
  let page := os_page os in
  let rs := align_up R page in
  let cs := align_up C page in
  let total := wadd rs (wmul page 2) in
  let mem := reserve_result os (log ++ [PageSize]) total in
  let r := arena_init os a R C log in
  let a' := snd (fst r) in
  0 <= k -> page = 2 ^ k ->
  0 <= R -> R + (page - 1) < modulus ->
  0 <= C -> C + (page - 1) < modulus ->
  ((page | rs) /\ R <= rs < R + page /\
   (forall m, (page | m) -> R <= m -> rs <= m)) /\
  ((page | cs) /\ C <= cs < C + page /\
   (forall m, (page | m) -> C <= m -> cs <= m)) /\
  (mem = 0 -> r = (false, a, log ++ [PageSize; Reserve total])) /\
  (0 < mem -> mem + (rs + 2 * page) <= modulus ->
     fst (fst r) = true /\
     reserve_size a' = rs /\ commit_step a' = cs /\
     base a' = mem + page /\ cursor a' = base a' /\ commit a' = base a' /\
     limit a' = base a' + reserve_size a' /\
     snd r = log ++ [PageSize; Reserve total; Guard mem page;
                     Guard (limit a') page] /\
     committed_bytes (snd r) = committed_bytes log).
Proof.
  cbv zeta. intros Hk Hpage HR HRfit HC HCfit.
  assert (Hp : 0 < 2 ^ k) by (apply Z.pow_pos_nonneg; lia).
  assert (Hround : forall x, 0 <= x -> x + (os_page os - 1) < modulus ->
    (os_page os | align_up x (os_page os)) /\
    x <= align_up x (os_page os) < x + os_page os /\
    (forall m, (os_page os | m) -> x <= m -> align_up x (os_page os) <= m)).
  { intros x Hx Hfit. rewrite Hpage in *.
    split; [now apply align_up_pow2_multiple|].
    pose proof (align_up_bounds x (2 ^ k)) as B.
    split; [lia|].
    intros m [q Hq] Hm. rewrite align_up_pow2 by assumption.
    pose proof (Z.mul_div_le (x + (2 ^ k - 1)) (2 ^ k) Hp) as Hlo.
    set (c := (x + (2 ^ k - 1)) / 2 ^ k) in *.
    assert (c < q + 1) by nia. nia. }
  split; [exact (Hround R HR HRfit)|].
  split; [exact (Hround C HC HCfit)|].
  rewrite arena_init_unfold. cbv zeta.
  set (rs := align_up R (os_page os)).
  set (mem := reserve_result os (log ++ [PageSize])
                (wadd rs (wmul (os_page os) 2))).
  split.
  - intros E. rewrite E. reflexivity.
  - intros Hmem Hfit.
    pose proof (align_up_word R (os_page os)) as Hr. fold rs in Hr.
    unfold is_word in Hr. rewrite Hpage in Hfit.
    assert (Hne : (mem =? 0) = false) by (apply Z.eqb_neq; lia).
    rewrite Hne. cbn [fst snd base cursor commit limit reserve_size commit_step].
    assert (Hb : wadd mem (os_page os) = mem + os_page os)
      by (rewrite Hpage; apply wadd_small; unfold is_word; lia).
    rewrite Hb.
    assert (Hl : wadd (mem + os_page os) rs = mem + os_page os + rs)
      by (rewrite Hpage; apply wadd_small; unfold is_word; lia).
    rewrite Hl.
    split; [reflexivity|]. split; [reflexivity|]. split; [reflexivity|].
    split; [reflexivity|]. split; [reflexivity|]. split; [reflexivity|].
    split; [reflexivity|]. split; [reflexivity|].
    rewrite committed_bytes_app. simpl. lia.
Qed.

Lemma arena_init_rounds_witness :
  let r := arena_init os4k arena0 100000 70000 [] in
  let a' := snd (fst r) in
  fst (fst r) = true /\
  reserve_size a' = 102400 /\ commit_step a' = 73728 /\
  base a' = 1048576 + 4096 /\ cursor a' = base a' /\ commit a' = base a' /\
  limit a' = base a' + reserve_size a' /\
  committed_bytes (snd r) = 0 /\
  arena_init os_no_reserve arena0 100000 70000 [] =
    (false, arena0, [] ++ [PageSize; Reserve (wadd (align_up 100000 4096)
                                                  (wmul 4096 2))]).
Proof.
  cbv zeta.
  destruct (arena_init_rounds os4k arena0 100000 70000 12 [])
    as (_ & _ & _ & Hok); [lia | reflexivity | lia | vm_compute; reflexivity
                          | lia | vm_compute; reflexivity |].
  destruct Hok as (W1 & W2 & W3 & W4 & W5 & W6 & W7 & _ & W8);
    [reflexivity | vm_compute; discriminate |].
  destruct (arena_init_rounds os_no_reserve arena0 100000 70000 12 [])
    as (_ & _ & Hfail & _); [lia | reflexivity | lia | vm_compute; reflexivity
                            | lia | vm_compute; reflexivity |].
  split; [exact W1|]. split; [rewrite W2; reflexivity|].
  split; [rewrite W3; reflexivity|]. split; [exact W4|].
  split; [exact W5|]. split; [exact W6|]. split; [exact W7|].
  split; [exact W8|]. apply Hfail. reflexivity.
Defined.

(** Where C5 stops holding.  [arena_init(SIZE_MAX, 64 KiB)] succeeds and
    records [reserve_size = 0]: the request plus 4095 wraps, so nothing is
    rounded up.  [arena_init(2^64 - 4096, 4 KiB)] succeeds with the request
    recorded as it is, but the total with the two guard pages wraps to one
    page and [base + reserve_size] wraps to the start of the reservation:
    [limit] lies below [base]. *)
Lemma arena_init_wraps :
  let r := arena_init os4k arena0 SIZE_MAX KiB64 [] in
  let a' := snd (fst r) in
  let r2 := arena_init os4k arena0 (modulus - 4096) 4096 [] in
  let a2 := snd (fst r2) in
  fst (fst r) = true /\ reserve_size a' = 0 /\ ~ SIZE_MAX <= reserve_size a' /\
  limit a' = base a' /\
  fst (fst r2) = true /\ reserve_size a2 = modulus - 4096 /\
  snd r2 = [PageSize; Reserve 4096; Guard 1048576 4096; Guard 1048576 4096] /\
  limit a2 <> base a2 + reserve_size a2 /\ limit a2 < base a2.
Proof.
  cbv zeta.
  split; [reflexivity|]. split; [reflexivity|].
  split; [vm_compute; intros H; apply H; reflexivity|].
  split; [reflexivity|]. split; [reflexivity|]. split; [reflexivity|].
  split; [reflexivity|]. split; [vm_compute; discriminate|].
  vm_compute. reflexivity.
Qed.

(** ** C7 and C10: later states of an arena *)

(** One call keeps a servable arena servable, whatever the OS answers,
    provided the candidate cannot wrap. *)
Lemma arena_alloc_servable os a size log :
  servable a ->
  limit a + align_up size ARENA_ALIGNMENT < modulus ->
  servable (snd (fst (arena_alloc os a size log))).
Proof.
  intros (Hb & Hbc & Hcl & Hcc & Hs & Htop) Hfit.
  pose proof (align_up_word size ARENA_ALIGNMENT) as W. unfold is_word in W.
  assert (Hcand : candidate a size = cursor a + align_up size ARENA_ALIGNMENT)
    by (unfold candidate; apply wadd_small; unfold is_word; lia).
  alloc_cases os a size log; cbn [fst snd].
  - unfold servable. tauto.
  - set (x := wsub (candidate a size) (commit a)).
    assert (Hx : x = candidate a size - commit a)
      by (apply wsub_small; unfold is_word; lia).
    pose proof (align_up_bounds x (commit_step a)) as B.
    unfold commit_need. fold x.
    assert (Hw : wadd (commit a) (align_up x (commit_step a))
                 = commit a + align_up x (commit_step a))
      by (apply wadd_small; unfold is_word; lia).
    unfold servable. simpl. rewrite Hw. lia.
  - unfold servable. tauto.
  - unfold servable. simpl. lia.
Qed.

Lemma run_ops_servable os (ops : list arena_op) :
  forall (a : Arena) (log : list os_call),
  servable a -> Forall (op_fits (limit a)) ops ->
  servable (fst (run_ops os ops a log)).
Proof.
  induction ops as [| op rest IH]; intros a log Hs Hfit.
  - exact Hs.
  - inversion Hfit as [| ? ? Hop Hrest]; subst.
    destruct op as [s |].
    + rewrite run_ops_alloc.
      destruct (arena_alloc_frame os a s log) as (_ & Fl & _).
      apply IH.
      * apply arena_alloc_servable; [exact Hs | exact Hop].
      * rewrite Fl. exact Hrest.
    + simpl run_ops. apply IH; [| exact Hrest].
      unfold servable, arena_reset in *. simpl. lia.
Qed.

(** What [arena_init] leaves is servable when the arena with one more
    commit step lies above address 0 and inside the address space. *)
Lemma arena_init_servable os a R C log :
  let page := os_page os in
  let rs := align_up R page in
  let cs := align_up C page in
  let mem := reserve_result os (log ++ [PageSize]) (wadd rs (wmul page 2)) in
  0 < mem -> 0 <= page -> 1 <= cs -> mem + page + rs + cs <= modulus ->
  servable (snd (fst (arena_init os a R C log))).
Proof.
  cbv zeta. intros Hmem Hpage Hcs Hfit.
  rewrite arena_init_unfold. cbv zeta.
  set (rs := align_up R (os_page os)) in *.
  set (mem := reserve_result os _ _) in *.
  pose proof (align_up_word R (os_page os)) as Hr. fold rs in Hr.
  unfold is_word in Hr.
  assert (Hne : (mem =? 0) = false) by (apply Z.eqb_neq; lia).
  rewrite Hne. cbn [fst snd].
  assert (Hb : wadd mem (os_page os) = mem + os_page os)
    by (apply wadd_small; unfold is_word; lia).
  rewrite Hb.
  assert (Hl : wadd (mem + os_page os) rs = mem + os_page os + rs)
    by (apply wadd_small; unfold is_word; lia).
  rewrite Hl. unfold servable. simpl. lia.
Qed.

(** C7, amended.  Take an arena set up by [arena_init] at a non-null
    address, with a recorded commit step of at least 1 and with [limit]
    plus one commit step still inside the address space, and let it be used
    since through any [arena_alloc] and [arena_reset] calls whose aligned
    sizes cannot wrap ([limit + align_up(s, 8) < 2^64]).  Then
    [arena_alloc] with size 0 succeeds: [align_up(0, 8)] is 0, the call
    returns the current cursor, which is not null, and leaves the arena and
    the OS untouched, so any number of zero-size calls in a row return that
    same address. *)
Theorem arena_alloc_zero_size_served (os : OS) (a : Arena) (R C : Z)
    (log log1 log2 : list os_call) (ops : list arena_op) (n : nat) :
  let page := os_page os in
  let rs := align_up R page in
  let cs := align_up C page in
  let mem := reserve_result os (log ++ [PageSize]) (wadd rs (wmul page 2)) in
  let a0 := snd (fst (arena_init os a R C log)) in
  let a1 := fst (run_ops os ops a0 log1) in
  0 < mem -> 0 <= page -> 1 <= cs -> mem + page + rs + cs <= modulus ->
  Forall (op_fits (limit a0)) ops ->
  align_up 0 ARENA_ALIGNMENT = 0 /\
  is_null (Some (cursor a1)) = false /\
  arena_alloc os a1 0 log2 = (Some (cursor a1), a1, log2) /\
  alloc_all os (repeat 0 n) a1 log2 = (repeat (Some (cursor a1)) n, a1, log2).
Proof.
  cbv zeta. intros Hmem Hpage Hcs Hfit Hops.
  pose proof (arena_init_servable os a R C log Hmem Hpage Hcs Hfit) as S0.
  pose proof (run_ops_servable os ops _ log1 S0 Hops) as S1.
  set (a1 := fst (run_ops os ops (snd (fst (arena_init os a R C log))) log1))
    in *.
  destruct S1 as (Hb & Hbc & Hcl & Hcc & Hs & Htop).
  assert (E : align_up 0 ARENA_ALIGNMENT = 0) by apply align_up_0_l.
  assert (Hw : is_word (cursor a1)) by (unfold is_word; lia).
  assert (H1 : forall l, arena_alloc os a1 0 l = (Some (cursor a1), a1, l))
    by (intros l; now apply arena_alloc_in_place).
  split; [exact E|]. split; [simpl; apply Z.eqb_neq; lia|].
  split; [apply H1|].
  induction n as [| n IH].
  - reflexivity.
  - cbn [repeat]. rewrite alloc_all_cons. cbv zeta.
    rewrite H1. simpl. rewrite IH. reflexivity.
Qed.

Lemma arena_alloc_zero_size_served_witness :
  let a0 := snd (fst (arena_init os4k arena0 61440 12288 [])) in
  let a1 := fst (run_ops os4k [Alloc 13; Alloc 60000; Reset; Alloc 100] a0 []) in
  cursor a1 = base a0 + 104 /\
  align_up 0 ARENA_ALIGNMENT = 0 /\
  is_null (Some (cursor a1)) = false /\
  arena_alloc os4k a1 0 [] = (Some (cursor a1), a1, []) /\
  alloc_all os4k (repeat 0 3%nat) a1 [] = (repeat (Some (cursor a1)) 3%nat, a1, []).
Proof.
  cbv zeta. split; [reflexivity|].
  apply (arena_alloc_zero_size_served os4k arena0 61440 12288 [] [] []
           [Alloc 13; Alloc 60000; Reset; Alloc 100] 3%nat).
  - reflexivity.
  - vm_compute; discriminate.
  - vm_compute; discriminate.
  - vm_compute; discriminate.
  - repeat constructor; vm_compute; reflexivity.
Defined.

(** Where C7 stops holding.
    - [arena_init(2^64 - 4096, 4 KiB)] succeeds with [limit] below the
      cursor, and [arena_alloc(a, 0)] is out of space.
    - After [arena_init(1 MiB, 64 KiB)] the request [2^64 - base] is served
      and wraps the cursor to 0; [arena_alloc(a, 0)] then returns the
      cursor, which is the null pointer.
    - [arena_init(4 KiB, 0)] records a commit step of 0; the first
      [arena_alloc(8)] commits 0 bytes and leaves the cursor past [commit],
      so [arena_alloc(a, 0)] has to ask the OS again and fails when the OS
      refuses. *)
Lemma arena_alloc_zero_size_fails :
  let r0 := arena_init os4k arena0 (modulus - 4096) 4096 [] in
  let a := snd (fst r0) in
  let q0 := arena_init os4k arena0 MiB KiB64 [] in
  let q1 := arena_alloc os4k (snd (fst q0)) (modulus - 1052672) (snd q0) in
  let b := snd (fst q1) in
  let s0 := arena_init os_stingy arena0 4096 0 [] in
  let s1 := arena_alloc os_stingy (snd (fst s0)) 8 (snd s0) in
  let c := snd (fst s1) in
  fst (fst r0) = true /\ limit a < cursor a /\
  arena_alloc os4k a 0 (snd r0) = (None, a, snd r0) /\
  fst (fst q0) = true /\ fst (fst q1) = Some 1052672 /\ cursor b = 0 /\
  fst (fst (arena_alloc os4k b 0 (snd q1))) = Some 0 /\
  is_null (fst (fst (arena_alloc os4k b 0 (snd q1)))) = true /\
  fst (fst s0) = true /\ commit_step c = 0 /\
  fst (fst s1) = Some (base c) /\ commit c < cursor c /\
  arena_alloc os_stingy c 0 (snd s1) =
    (None, c, snd s1 ++ [Commit (commit c) 0]).
Proof.
  cbv zeta.
  split; [reflexivity|]. split; [vm_compute; reflexivity|].
  split; [reflexivity|]. split; [reflexivity|]. split; [reflexivity|].
  split; [reflexivity|]. split; [reflexivity|]. split; [reflexivity|].
  split; [reflexivity|]. split; [reflexivity|]. split; [reflexivity|].
  split; [vm_compute; reflexivity|]. reflexivity.
Qed.

(** An arena with an empty usable range: a request is served in place when
    its aligned size is 0 and is out of space otherwise. *)
Lemma arena_alloc_empty_range os a s log :
  is_word (base a) -> cursor a = base a -> commit a = base a ->
  limit a = base a ->
  base a + align_up s ARENA_ALIGNMENT < modulus ->
  arena_alloc os a s log =
    (if align_up s ARENA_ALIGNMENT =? 0 then Some (base a) else None, a, log).
Proof.
  intros Hw Hc Hm Hl Hfit.
  pose proof (align_up_word s ARENA_ALIGNMENT) as W. unfold is_word in W, Hw.
  destruct (Z.eqb_spec (align_up s ARENA_ALIGNMENT) 0) as [E | E].
  - rewrite <- Hc. apply arena_alloc_in_place; try lia.
    unfold is_word. lia.
  - apply arena_alloc_out_of_space. unfold candidate.
    rewrite wadd_small by (unfold is_word; lia). lia.
Qed.

(** C10, amended.  When [arena_init(a, 0, C)] succeeds at a non-null
    address whose first page lies inside the address space, the usable
    range is empty: [reserve_size = 0] and [cursor = commit = limit = base],
    with [base] not null.  From then on, as long as no request made since
    has a candidate [base + align_up(s, 8)] that wraps past the end of the
    address space, the arena never changes and the OS is never called:
    every request whose aligned size is positive fails and every zero-size
    request returns [base]; [arena_reset] changes nothing either. *)
Theorem arena_init_zero_reserve_stays (os : OS) (a : Arena) (C : Z)
    (log log1 log2 : list os_call) (ops : list arena_op) (sizes : list Z) :
  let page := os_page os in
  let mem := reserve_result os (log ++ [PageSize])
               (wadd (align_up 0 page) (wmul page 2)) in
  let r := arena_init os a 0 C log in
  let a' := snd (fst r) in
  0 < mem -> 0 <= page -> mem + page < modulus ->
  Forall (op_fits (base a')) ops ->
  Forall (fun s => base a' + align_up s ARENA_ALIGNMENT < modulus) sizes ->
  fst (fst r) = true /\
  reserve_size a' = 0 /\ limit a' = base a' /\
  cursor a' = base a' /\ commit a' = base a' /\
  is_null (Some (base a')) = false /\
  run_ops os ops a' log1 = (a', log1) /\
  alloc_all os sizes (fst (run_ops os ops a' log1)) log2 =
    (map (fun s => if align_up s ARENA_ALIGNMENT =? 0
                   then Some (base a') else None) sizes,
     a', log2).
Proof.
  cbv zeta. intros Hmem Hpage Hfit.
  rewrite arena_init_unfold. cbv zeta.
  set (mem := reserve_result os _ _) in *.
  assert (Hne : (mem =? 0) = false) by (apply Z.eqb_neq; lia).
  rewrite Hne. cbn [fst snd]. rewrite align_up_0_l.
  assert (Hb : wadd mem (os_page os) = mem + os_page os)
    by (apply wadd_small; unfold is_word; lia).
  rewrite Hb.
  set (b := mem + os_page os) in *.
  assert (Hlim : wadd b 0 = b)
    by (unfold wadd; rewrite Z.add_0_r; apply wrap_small;
        unfold is_word; lia).
  rewrite Hlim.
  set (a' := mkArena b b b b 0 (align_up C (os_page os))).
  cbn [base limit cursor commit reserve_size].
  intros Hops Hsizes.
  assert (Hstep : forall s l, b + align_up s ARENA_ALIGNMENT < modulus ->
    arena_alloc os a' s l =
      (if align_up s ARENA_ALIGNMENT =? 0 then Some b else None, a', l)).
  { intros s l Hs.
    apply (arena_alloc_empty_range os a' s l); try reflexivity.
    - unfold is_word. simpl. lia.
    - exact Hs. }
  assert (Hrun : forall l, run_ops os ops a' l = (a', l)).
  { clear Hsizes. induction ops as [| op rest IH]; intros l.
    - reflexivity.
    - inversion Hops as [| ? ? Hop Hrest]; subst.
      destruct op as [s |].
      + rewrite run_ops_alloc, (Hstep s l Hop). cbn [fst snd].
        apply IH. exact Hrest.
      + simpl run_ops. change (arena_reset a') with a'.
        apply IH. exact Hrest. }
  split; [reflexivity|]. split; [reflexivity|]. split; [reflexivity|].
  split; [reflexivity|]. split; [reflexivity|].
  split; [simpl; apply Z.eqb_neq; lia|].
  split; [apply Hrun|].
  rewrite Hrun. cbn [fst]. clear Hops Hrun.
  revert log2. induction sizes as [| s rest IH]; intros log2.
  - reflexivity.
  - inversion Hsizes as [| ? ? Hs Hrest]; subst.
    rewrite alloc_all_cons. cbv zeta. rewrite (Hstep s log2 Hs).
    cbn [fst snd]. rewrite (IH Hrest). reflexivity.
Qed.

Lemma arena_init_zero_reserve_stays_witness :
  let r := arena_init os4k arena0 0 65536 [] in
  let a' := snd (fst r) in
  fst (fst r) = true /\
  reserve_size a' = 0 /\ limit a' = base a' /\
  cursor a' = base a' /\ commit a' = base a' /\
  is_null (Some (base a')) = false /\
  run_ops os4k [Alloc 13; Reset; Alloc 0; Alloc MiB] a' (snd r) = (a', snd r) /\
  alloc_all os4k [13; 0; SIZE_MAX; 1]
    (fst (run_ops os4k [Alloc 13; Reset; Alloc 0; Alloc MiB] a' (snd r)))
    (snd r) =
    (map (fun s => if align_up s ARENA_ALIGNMENT =? 0
                   then Some (base a') else None) [13; 0; SIZE_MAX; 1],
     a', snd r).
Proof.
  apply (arena_init_zero_reserve_stays os4k arena0 65536 []
           (snd (arena_init os4k arena0 0 65536 []))
           (snd (arena_init os4k arena0 0 65536 []))
           [Alloc 13; Reset; Alloc 0; Alloc MiB] [13; 0; SIZE_MAX; 1]).
  - reflexivity.
  - vm_compute; discriminate.
  - vm_compute; reflexivity.
  - repeat constructor; vm_compute; reflexivity.
  - repeat constructor; vm_compute; reflexivity.
Defined.
